(** * chain-monitor: the browser client's state matrix, verified

    A shallow embedding of the dashboard script of chain-monitor (class
    [ChainsState] and class [App]) and the properties of the state matrix,
    the cell classifier, the alert rule, the preference store and the
    reconnect loop.

    Conventions.
    - A JavaScript array indexed by arbitrary integers ([this.states]) is a
      finite map over [Z]: a negative index is an ordinary property of the
      array object, written and read back like any other.
    - [this.bestHeight] is a dense array, a [list]; reading it outside its
      bounds gives [undefined], modelled by [None].
    - Frames are taken after decoding, with the field types of the wire
      protocol: heights are naturals, hashes and ids are strings, timestamps
      are integer seconds.  Numbers are exact (no rounding to doubles),
      except in the delay of the first revision, which takes the rounding
      as a parameter.
    - A date is valid within 8.64e15 ms of the epoch; [toISOString()] of
      any other throws a RangeError.
    - A handler that can throw returns a [completion]; mutations made before
      the throw are kept, as in JavaScript. *)

From Stdlib Require Import ZArith NArith QArith Qminmax Qround String Ascii List Bool Lia.
From Stdlib Require Import DecimalString.
From stdpp Require Import gmap list.

Set Warnings "-register-all".

Local Open Scope string_scope.
Local Open Scope list_scope.
Local Open Scope Z_scope.

(** ** JavaScript values and errors *)

Module Js.

Inductive error := SyntaxError | TypeError | RangeError.

(** The outcome of an expression or a call: a value, or a thrown error. *)
Inductive completion (A : Type) : Type :=
| Normal (a : A)
| Throw (e : error).
Arguments Normal {A} a.
Arguments Throw {A} e.

Definition bind {A B} (c : completion A) (k : A -> completion B) : completion B :=
  match c with
  | Normal a => k a
  | Throw e => Throw e
  end.

(** A loop of calls: the first one that throws ends it. *)
Fixpoint sequence {A} (cs : list (completion A)) : completion (list A) :=
  match cs with
  | [] => Normal []
  | c :: r => bind c (fun a => bind (sequence r) (fun l => Normal (a :: l)))
  end.

(** A string of UTF-16 code units, as produced by a [\uXXXX] escape. *)
Definition code_units := list N.

Definition units (s : string) : code_units :=
  map N_of_ascii (list_ascii_of_string s).

Definition units_eqb (a b : code_units) : bool :=
  bool_decide (a = b).

(** A Number: [Finite m e] is [m * 10^e]. *)
Inductive number :=
| NaN
| Infinity (negative : bool)
| Finite (m e : Z).

Definition is_digit (c : ascii) : bool :=
  (48 <=? N_of_ascii c)%N && (N_of_ascii c <=? 57)%N.

Definition digit_value (c : ascii) : Z := Z.of_N (N_of_ascii c) - 48.

Definition hex_value (c : ascii) : option Z :=
  let n := N_of_ascii c in
  if (48 <=? n)%N && (n <=? 57)%N then Some (Z.of_N n - 48)
  else if (65 <=? n)%N && (n <=? 70)%N then Some (Z.of_N n - 55)
  else if (97 <=? n)%N && (n <=? 102)%N then Some (Z.of_N n - 87)
  else None.

Fixpoint span_digits (cs : list ascii) : list ascii * list ascii :=
  match cs with
  | c :: r =>
      if is_digit c then let '(ds, rest) := span_digits r in (c :: ds, rest)
      else ([], cs)
  | [] => ([], [])
  end.

Definition digits_value (ds : list ascii) : Z :=
  fold_left (fun v d => 10 * v + digit_value d) ds 0.

(** Digits of a literal in base [radix]; [None] when a character is not a
    digit of that base or when there is no digit at all. *)
Fixpoint radix_value (radix : Z) (cs : list ascii) (acc : Z) : option Z :=
  match cs with
  | [] => Some acc
  | c :: r =>
      match hex_value c with
      | Some d => if d <? radix then radix_value radix r (radix * acc + d) else None
      | None => None
      end
  end.

Definition radix_literal (radix : Z) (cs : list ascii) : number :=
  match cs with
  | [] => NaN
  | _ => match radix_value radix cs 0 with
         | Some v => Finite v 0
         | None => NaN
         end
  end.

(** StrWhiteSpaceChar, for the characters a [string] can hold. *)
Definition is_str_ws (c : ascii) : bool :=
  let n := N_of_ascii c in
  ((9 <=? n)%N && (n <=? 13)%N) || (n =? 32)%N || (n =? 160)%N.

Fixpoint drop_ws (cs : list ascii) : list ascii :=
  match cs with
  | c :: r => if is_str_ws c then drop_ws r else cs
  | [] => []
  end.

Definition trim (cs : list ascii) : list ascii :=
  rev (drop_ws (rev (drop_ws cs))).

(** An optional exponent part that must reach the end of the literal. *)
Definition exponent_to_end (cs : list ascii) : option Z :=
  match cs with
  | [] => Some 0
  | c :: r =>
      if (N_of_ascii c =? 101)%N || (N_of_ascii c =? 69)%N then
        let '(neg, r1) :=
          match r with
          | "+"%char :: r' => (false, r')
          | "-"%char :: r' => (true, r')
          | _ => (false, r)
          end in
        match span_digits r1 with
        | ([], _) => None
        | (ep, []) => Some (if neg then - digits_value ep else digits_value ep)
        | (_, _ :: _) => None
        end
      else None
  end.

(** StrUnsignedDecimalLiteral. *)
Definition unsigned_decimal (neg : bool) (cs : list ascii) : number :=
  if bool_decide (cs = list_ascii_of_string "Infinity") then Infinity neg
  else
    let '(ip, r1) := span_digits cs in
    let '(fp, r2) :=
      match r1 with
      | "."%char :: r => span_digits r
      | _ => ([], r1)
      end in
    match ip ++ fp with
    | [] => NaN
    | ds =>
        match exponent_to_end r2 with
        | Some ex =>
            let m := digits_value ds in
            Finite (if neg then - m else m) (ex - Z.of_nat (length fp))
        | None => NaN
        end
    end.

(** StringToNumber (ECMA-262 7.1.4.1.1), on exact decimal values. *)
Definition StringToNumber (s : string) : number :=
  match trim (list_ascii_of_string s) with
  | [] => Finite 0 0
  | "0"%char :: "x"%char :: r | "0"%char :: "X"%char :: r => radix_literal 16 r
  | "0"%char :: "o"%char :: r | "0"%char :: "O"%char :: r => radix_literal 8 r
  | "0"%char :: "b"%char :: r | "0"%char :: "B"%char :: r => radix_literal 2 r
  | "+"%char :: r => unsigned_decimal false r
  | "-"%char :: r => unsigned_decimal true r
  | cs => unsigned_decimal false cs
  end.

(** [x == n] for a Number [x] and an integer [n]. *)
Definition number_eq_int (x : number) (n : Z) : bool :=
  match x with
  | NaN | Infinity _ => false
  | Finite m e => if 0 <=? e then m * 10 ^ e =? n else m =? n * 10 ^ (- e)
  end.

(** [s != n] with [s] a String and [n] a Number: the string is converted
    with StringToNumber and the numbers are compared. *)
Definition string_loose_neq_number (s : string) (n : N) : bool :=
  negb (number_eq_int (StringToNumber s) (Z.of_N n)).

End Js.

Import Js.

(** ** JSON.parse

    The preference store is read back with [JSON.parse]; the parser below
    follows the JSON grammar (ECMA-404): white space, the three literals,
    numbers, strings with their escapes, arrays and objects.  A text that is
    not a JSON text makes [JSON.parse] throw a SyntaxError. *)

Module JSON.

Inductive json :=
| JNull
| JBool (b : bool)
| JNum (m e : Z)                         (* m * 10^e *)
| JStr (s : code_units)
| JArr (elements : list json)
| JObj (members : list (code_units * json)).

(** What a fuelled parsing function returns: a value with the text left, a
    syntax error, or fuel exhausted. *)
Inductive outcome (A : Type) : Type :=
| Ok (a : A)
| Bad
| OutOfFuel.
Arguments Ok {A} a.
Arguments Bad {A}.
Arguments OutOfFuel {A}.

Definition quote : ascii := "034"%char.
Definition backslash : ascii := "092"%char.

Definition is_ws (c : ascii) : bool :=
  let n := N_of_ascii c in
  (n =? 32)%N || (n =? 9)%N || (n =? 10)%N || (n =? 13)%N.

Fixpoint skip_ws (cs : list ascii) : list ascii :=
  match cs with
  | c :: r => if is_ws c then skip_ws r else cs
  | [] => []
  end.

(** The text after [c] when the text starts with [c]. *)
Definition take_char (c : ascii) (cs : list ascii) : option (list ascii) :=
  match cs with
  | x :: r => if Ascii.eqb x c then Some r else None
  | [] => None
  end.

(** The same after white space. *)
Definition expect (c : ascii) (cs : list ascii) : option (list ascii) :=
  take_char c (skip_ws cs).

Fixpoint strip_prefix (p cs : list ascii) : option (list ascii) :=
  match p with
  | [] => Some cs
  | a :: p' =>
      match take_char a cs with
      | Some r => strip_prefix p' r
      | None => None
      end
  end.

Definition take_word (w : string) (cs : list ascii) : option (list ascii) :=
  strip_prefix (list_ascii_of_string w) cs.

Definition hex4 (a b c d : ascii) : option N :=
  match hex_value a, hex_value b, hex_value c, hex_value d with
  | Some x, Some y, Some z, Some w =>
      Some (Z.to_N (((x * 16 + y) * 16 + z) * 16 + w))
  | _, _, _, _ => None
  end.

(** The code unit an escape letter stands for. *)
Definition escape (e : ascii) : option N :=
  if Ascii.eqb e quote then Some 34%N
  else if Ascii.eqb e backslash then Some 92%N
  else if Ascii.eqb e "/" then Some 47%N
  else if Ascii.eqb e "b" then Some 8%N
  else if Ascii.eqb e "f" then Some 12%N
  else if Ascii.eqb e "n" then Some 10%N
  else if Ascii.eqb e "r" then Some 13%N
  else if Ascii.eqb e "t" then Some 9%N
  else None.

(** The characters of a string literal after its opening quote, up to and
    including the closing quote. *)
Fixpoint parse_string_body (cs : list ascii) (acc : code_units)
  : option (code_units * list ascii) :=
  match cs with
  | [] => None
  | c :: r =>
      if Ascii.eqb c quote then Some (rev acc, r)
      else if Ascii.eqb c backslash then
        match r with
        | [] => None
        | e :: r' =>
            if Ascii.eqb e "u" then
              match r' with
              | h1 :: h2 :: h3 :: h4 :: r'' =>
                  match hex4 h1 h2 h3 h4 with
                  | Some u => parse_string_body r'' (u :: acc)
                  | None => None
                  end
              | _ => None
              end
            else
              match escape e with
              | Some u => parse_string_body r' (u :: acc)
              | None => None
              end
        end
      else if (N_of_ascii c <? 32)%N then None
      else parse_string_body r (N_of_ascii c :: acc)
  end.

(** frac = decimal-point 1*DIGIT, optional. *)
Definition parse_frac (cs : list ascii) : option (list ascii * list ascii) :=
  match take_char "." cs with
  | Some r =>
      match span_digits r with
      | ([], _) => None
      | (fp, r') => Some (fp, r')
      end
  | None => Some ([], cs)
  end.

(** exp = e [ minus / plus ] 1*DIGIT, optional. *)
Definition parse_exp (cs : list ascii) : option (Z * list ascii) :=
  let after_e :=
    match take_char "e" cs with
    | Some r => Some r
    | None => take_char "E" cs
    end in
  match after_e with
  | Some r =>
      let '(neg, r1) :=
        match take_char "-" r with
        | Some r' => (true, r')
        | None =>
            match take_char "+" r with
            | Some r' => (false, r')
            | None => (false, r)
            end
        end in
      match span_digits r1 with
      | ([], _) => None
      | (ep, r2) => Some (if neg then - digits_value ep else digits_value ep, r2)
      end
  | None => Some (0, cs)
  end.

(** number = [ minus ] int [ frac ] [ exp ], with no leading zero in int. *)
Definition parse_number (cs : list ascii) : option (json * list ascii) :=
  let '(neg, cs1) :=
    match take_char "-" cs with
    | Some r => (true, r)
    | None => (false, cs)
    end in
  let '(ip, r1) := span_digits cs1 in
  match ip with
  | [] => None
  | d :: ds =>
      if Ascii.eqb d "0" && match ds with [] => false | _ :: _ => true end then None
      else
        match parse_frac r1 with
        | None => None
        | Some (fp, r2) =>
            match parse_exp r2 with
            | None => None
            | Some (ex, r3) =>
                let m := digits_value (ip ++ fp) in
                Some (JNum (if neg then - m else m) (ex - Z.of_nat (length fp)), r3)
            end
        end
  end.

(** value, elements of an array after its bracket, members of an object
    after its brace. *)
Fixpoint parse_value (fuel : nat) (cs : list ascii) : outcome (json * list ascii) :=
  match fuel with
  | O => OutOfFuel
  | S fuel' =>
      let cs' := skip_ws cs in
      match take_char "{" cs' with
      | Some r =>
          match expect "}" r with
          | Some r' => Ok (JObj [], r')
          | None => parse_members fuel' r []
          end
      | None =>
      match take_char "[" cs' with
      | Some r =>
          match expect "]" r with
          | Some r' => Ok (JArr [], r')
          | None => parse_elements fuel' r []
          end
      | None =>
      match take_char quote cs' with
      | Some r =>
          match parse_string_body r [] with
          | Some (s, r') => Ok (JStr s, r')
          | None => Bad
          end
      | None =>
      match take_word "true" cs' with
      | Some r => Ok (JBool true, r)
      | None =>
      match take_word "false" cs' with
      | Some r => Ok (JBool false, r)
      | None =>
      match take_word "null" cs' with
      | Some r => Ok (JNull, r)
      | None =>
      match parse_number cs' with
      | Some (v, r) => Ok (v, r)
      | None => Bad
      end end end end end end end
  end
with parse_elements (fuel : nat) (cs : list ascii) (acc : list json)
  : outcome (json * list ascii) :=
  match fuel with
  | O => OutOfFuel
  | S fuel' =>
      match parse_value fuel' cs with
      | Ok (v, r) =>
          match expect "," r with
          | Some r' => parse_elements fuel' r' (v :: acc)
          | None =>
              match expect "]" r with
              | Some r' => Ok (JArr (rev (v :: acc)), r')
              | None => Bad
              end
          end
      | Bad => Bad
      | OutOfFuel => OutOfFuel
      end
  end
with parse_members (fuel : nat) (cs : list ascii) (acc : list (code_units * json))
  : outcome (json * list ascii) :=
  match fuel with
  | O => OutOfFuel
  | S fuel' =>
      match expect quote cs with
      | Some r =>
          match parse_string_body r [] with
          | Some (k, r1) =>
              match expect ":" r1 with
              | Some r2 =>
                  match parse_value fuel' r2 with
                  | Ok (v, r3) =>
                      match expect "," r3 with
                      | Some r4 => parse_members fuel' r4 ((k, v) :: acc)
                      | None =>
                          match expect "}" r3 with
                          | Some r4 => Ok (JObj (rev ((k, v) :: acc)), r4)
                          | None => Bad
                          end
                      end
                  | Bad => Bad
                  | OutOfFuel => OutOfFuel
                  end
              | None => Bad
              end
          | None => Bad
          end
      | None => Bad
      end
  end.

(** Fuel for a text of [n] characters; [parse_value] never uses it up
    (lemma [parse_value_fuel]). *)
Definition fuel_for (cs : list ascii) : nat := 2 * length cs + 1.

(** [JSON.parse(text)]: one value, white space around it, nothing else. *)
Definition parse (text : string) : completion json :=
  let cs := list_ascii_of_string text in
  match parse_value (fuel_for cs) cs with
  | Ok (v, rest) =>
      match skip_ws rest with
      | [] => Normal v
      | _ :: _ => Throw SyntaxError
      end
  | Bad | OutOfFuel => Throw SyntaxError
  end.

(** ToBoolean of a parsed value. *)
Definition truthy (v : json) : bool :=
  match v with
  | JNull => false
  | JBool b => b
  | JNum m _ => negb (m =? 0)
  | JStr s => match s with [] => false | _ :: _ => true end
  | JArr _ | JObj _ => true
  end.

(** The own property [k] of a parsed object; when the text repeats a key,
    the last member wins. *)
Fixpoint get_own (members : list (code_units * json)) (k : code_units) : option json :=
  match members with
  | [] => None
  | (k', v) :: r =>
      match get_own r k with
      | Some v' => Some v'
      | None => if units_eqb k k' then Some v else None
      end
  end.

(** *** JSON.stringify

    The text [JSON.stringify(value)] gives for a parsed value, as code
    units: no white space, strings quoted by QuoteJSONString, numbers
    printed by Number::toString, the properties of an object in the order
    of its own keys. *)

(** The own properties of the object a member list builds: a repeated key
    keeps its first place and takes its last value. *)
Fixpoint put {V} (k : code_units) (v : V) (ps : list (code_units * V))
  : list (code_units * V) :=
  match ps with
  | [] => [(k, v)]
  | (k', v') :: r => if units_eqb k k' then (k', v) :: r else (k', v') :: put k v r
  end.

Definition own_properties {V} (members : list (code_units * V)) : list (code_units * V) :=
  fold_left (fun ps kv => put (fst kv) (snd kv) ps) members [].

(** An array index: the canonical decimal text of an integer below
    [2^32 - 1]. *)
Definition array_index (k : code_units) : option N :=
  match k with
  | [] => None
  | d :: r =>
      if forallb (fun u => (48 <=? u)%N && (u <=? 57)%N) k
         && negb ((d =? 48)%N && match r with [] => false | _ :: _ => true end)
         && (length k <=? 10)%nat
      then
        let n := fold_left (fun a u => (10 * a + (u - 48))%N) k 0%N in
        if (n <? 4294967295)%N then Some n else None
      else None
  end.

Fixpoint insert_by_index {V} (i : N) (kv : code_units * V)
    (sorted : list (N * (code_units * V))) : list (N * (code_units * V)) :=
  match sorted with
  | [] => [(i, kv)]
  | (j, kv') :: r =>
      if (i <? j)%N then (i, kv) :: sorted else (j, kv') :: insert_by_index i kv r
  end.

(** OrdinaryOwnPropertyKeys: the array indices in ascending order, then the
    other keys in the order they were created. *)
Definition key_order {V} (ps : list (code_units * V)) : list (code_units * V) :=
  let indexed :=
    fold_left (fun acc kv =>
                 match array_index (fst kv) with
                 | Some i => insert_by_index i kv acc
                 | None => acc
                 end) ps [] in
  map snd indexed
  ++ List.filter (fun kv => match array_index (fst kv) with
                            | Some _ => false
                            | None => true
                            end) ps.

Definition properties {V} (members : list (code_units * V)) : list (code_units * V) :=
  key_order (own_properties members).

Definition hex_digit (n : N) : N := if (n <? 10)%N then (48 + n)%N else (87 + n)%N.

Definition unicode_escape (u : N) : code_units :=
  [92; 117; hex_digit (u / 4096 mod 16); hex_digit (u / 256 mod 16);
   hex_digit (u / 16 mod 16); hex_digit (u mod 16)]%N.

(** The text of one code unit inside a quoted string. *)
Definition quote_unit (u : N) : code_units :=
  (if u =? 8 then [92; 98]
   else if u =? 9 then [92; 116]
   else if u =? 10 then [92; 110]
   else if u =? 12 then [92; 102]
   else if u =? 13 then [92; 114]
   else if u =? 34 then [92; 34]
   else if u =? 92 then [92; 92]
   else if u <? 32 then unicode_escape u
   else [u])%N.

Definition is_lead (u : N) : bool := (55296 <=? u)%N && (u <=? 56319)%N.
Definition is_trail (u : N) : bool := (56320 <=? u)%N && (u <=? 57343)%N.

(** A surrogate pair goes out as it is; a lone surrogate is escaped. *)
Fixpoint quote_body (us : code_units) : code_units :=
  match us with
  | [] => []
  | u :: r =>
      if is_lead u then
        match r with
        | v :: r' =>
            if is_trail v then u :: v :: quote_body r'
            else unicode_escape u ++ quote_body r
        | [] => unicode_escape u
        end
      else if is_trail u then unicode_escape u ++ quote_body r
      else quote_unit u ++ quote_body r
  end.

Definition QuoteJSONString (s : code_units) : code_units :=
  34%N :: quote_body s ++ [34%N].

Definition digits_of (n : N) : list ascii :=
  list_ascii_of_string (NilEmpty.string_of_uint (N.to_uint n)).

Fixpoint drop_zeros (ds : list ascii) : list ascii :=
  match ds with
  | d :: r => if Ascii.eqb d "0" then drop_zeros r else ds
  | [] => []
  end.

(** Number::toString for the number [m * 10^e]. *)
Definition NumberToString (m e : Z) : list ascii :=
  if m =? 0 then ["0"%char]
  else
    let all := digits_of (Z.to_N (Z.abs m)) in
    let s := rev (drop_zeros (rev all)) in
    let k := Z.of_nat (length s) in
    let n := Z.of_nat (length all) + e in
    let body :=
      if (k <=? n) && (n <=? 21) then s ++ repeat "0"%char (Z.to_nat (n - k))
      else if (0 <? n) && (n <=? 21)
           then firstn (Z.to_nat n) s ++ "."%char :: skipn (Z.to_nat n) s
      else if (-6 <? n) && (n <=? 0)
           then "0"%char :: "."%char :: repeat "0"%char (Z.to_nat (- n)) ++ s
      else
        let ex := n - 1 in
        let es := (if ex <? 0 then "-"%char else "+"%char)
                  :: digits_of (Z.to_N (Z.abs ex)) in
        match s with
        | [] => []
        | [d] => d :: "e"%char :: es
        | d :: r => d :: "."%char :: r ++ "e"%char :: es
        end in
    if m <? 0 then "-"%char :: body else body.

Fixpoint join_comma (parts : list code_units) : code_units :=
  match parts with
  | [] => []
  | [x] => x
  | x :: r => x ++ 44%N :: join_comma r
  end.

Fixpoint stringify (v : json) : code_units :=
  match v with
  | JNull => units "null"
  | JBool true => units "true"
  | JBool false => units "false"
  | JNum m e => map N_of_ascii (NumberToString m e)
  | JStr s => QuoteJSONString s
  | JArr elements => 91%N :: join_comma (map stringify elements) ++ [93%N]
  | JObj members =>
      123%N
      :: join_comma
           (map (fun kv => QuoteJSONString (fst kv) ++ 58%N :: snd kv)
              (properties (map (fun kv => (fst kv, stringify (snd kv))) members)))
      ++ [125%N]
  end.

End JSON.

Import JSON.

(** ** The registry and the frames *)

Module Source.
Record t := { id : string; shortName : string; fullName : string }.
End Source.

Module Chain.
Record t := { id : string; fullName : string; blockTimeSecs : Z }.
End Chain.

(** The payload of an update frame, stored as it comes. *)
Record ChainState := {
  height : N;
  hash : string;
  firstSeenTs : Z;
}.

(** [array.findIndex(p)]: the first index whose element satisfies [p],
    [-1] when there is none. *)
Fixpoint findIndex_from {A} (p : A -> bool) (l : list A) (k : Z) : Z :=
  match l with
  | [] => -1
  | x :: r => if p x then k else findIndex_from p r (k + 1)
  end.

Definition findIndex {A} (p : A -> bool) (l : list A) : Z := findIndex_from p l 0.

(** [a[i]] on a dense array: [undefined] outside the bounds. *)
Definition array_get {A} (a : list A) (i : Z) : option A :=
  if i <? 0 then None else a !! Z.to_nat i.

(** [Math.round(ms / 1000)]: the nearest integer, halves going up. *)
Definition round_ms_to_secs (ms : Z) : Z := (ms + 500) / 1000.

(** [new Date(ms)] holds a time value when [ms] is within 8.64e15
    milliseconds of the epoch; otherwise the date is invalid and
    [toISOString()] throws a RangeError. *)
Definition validTimeValue (ms : Z) : bool := Z.abs ms <=? 8640000000000000.

(** ** class ChainsState *)

Module ChainsState.

Record t := {
  sources : list Source.t;
  chains : list Chain.t;
  states : gmap Z ChainState;
  bestHeight : list N;
  MAX_BACKEND_SOURCE_CHECK_PERIOD_SECS : Z;
  enableSoundFor : json;
}.

Definition set_states (this : t) (m : gmap Z ChainState) : t :=
  {| sources := sources this; chains := chains this; states := m;
     bestHeight := bestHeight this;
     MAX_BACKEND_SOURCE_CHECK_PERIOD_SECS := MAX_BACKEND_SOURCE_CHECK_PERIOD_SECS this;
     enableSoundFor := enableSoundFor this |}.

Definition set_bestHeight (this : t) (b : list N) : t :=
  {| sources := sources this; chains := chains this; states := states this;
     bestHeight := b;
     MAX_BACKEND_SOURCE_CHECK_PERIOD_SECS := MAX_BACKEND_SOURCE_CHECK_PERIOD_SECS this;
     enableSoundFor := enableSoundFor this |}.

(** [window.localStorage.getItem('enableSoundFor')] is [None] when the key
    is absent.  [x || '{}'] takes the default for [null] and for the empty
    string. *)
Definition loadEnableSoundFor (item : option string) : completion json :=
  JSON.parse
    (match item with
     | None | Some EmptyString => "{}"
     | Some s => s
     end).

Definition constructor (sources : list Source.t) (chains : list Chain.t)
    (item : option string) : completion t :=
  bind (loadEnableSoundFor item) (fun prefs =>
    Normal {| sources := sources; chains := chains; states := ∅;
              bestHeight := replicate (length chains) 0%N;
              MAX_BACKEND_SOURCE_CHECK_PERIOD_SECS := 60;
              enableSoundFor := prefs |}).

Definition enableSoundForIdx (source chain : string) : string :=
  source ++ "###" ++ chain.

(** [this.enableSoundFor[key] || false], as a truth value.  The key holds
    ["###"], so it names no index and no inherited property: on a parsed
    object the lookup is the own-property lookup, on a number, string,
    boolean or array it is [undefined], and on [null] it throws. *)
Definition getEnableSoundFor (this : t) (source chain : string) : completion bool :=
  match enableSoundFor this with
  | JNull => Throw TypeError
  | JObj members =>
      Normal (match get_own members (units (enableSoundForIdx source chain)) with
              | Some v => truthy v
              | None => false
              end)
  | JBool _ | JNum _ _ | JStr _ | JArr _ => Normal false
  end.

Definition getIdx (this : t) (sourceIdx chainIdx : Z) : Z :=
  sourceIdx * Z.of_nat (length (chains this)) + chainIdx.

Definition getIdxByIds (this : t) (source chain : string) : Z :=
  getIdx this
    (findIndex (fun element => String.eqb (Source.id element) source) (sources this))
    (findIndex (fun element => String.eqb (Chain.id element) chain) (chains this)).

Definition getChainIdx (this : t) (chain : string) : Z :=
  findIndex (fun element => String.eqb (Chain.id element) chain) (chains this).

(** [update]: the state after the call and whether [playSound()] was
    called.  The two assignments are made before the sound test, so they
    are kept when the test throws. *)
Definition update (this : t) (source chain : string) (chainState : ChainState)
  : t * completion bool :=
  let stateIdx := getIdxByIds this source chain in
  let prevState := states this !! stateIdx in
  let this1 := set_states this (<[stateIdx := chainState]> (states this)) in
  let bestHeightIdx := getChainIdx this1 chain in
  let this2 :=
    match array_get (bestHeight this1) bestHeightIdx with
    | Some best =>
        if (best <? height chainState)%N
        then set_bestHeight this1
               (<[Z.to_nat bestHeightIdx := height chainState]> (bestHeight this1))
        else this1
    | None => this1
    end in
  let differs :=
    match prevState with
    | None => true
    | Some prev => string_loose_neq_number (hash prev) (height chainState)
    end in
  (this2, if differs then getEnableSoundFor this2 source chain else Normal false).

(** The cell of [(sourceIdx, chainIdx)] in [renderTable]: the classes put
    on it, in the order they are added; [nowMs] is [new Date().getTime()].
    For a cell with an observation the preference lookup comes first
    (TypeError on a [null] store), then the tooltip prints
    [new Date(1000 * firstSeenTs).toISOString()] (RangeError on an invalid
    date), and only then the classes of the observation are added: a cell
    that throws ends [renderTable]. *)
Definition cellClasses (this : t) (nowMs : Z) (chainIdx sourceIdx : nat)
    (chain : Chain.t) (source : Source.t) : completion (list string) :=
  let bestHeight := bestHeight this !! chainIdx in
  let stateIdx := getIdx this (Z.of_nat sourceIdx) (Z.of_nat chainIdx) in
  match states this !! stateIdx with
  | Some chainState =>
      bind (getEnableSoundFor this (Source.id source) (Chain.id chain)) (fun enabled =>
        let diff := (fun best => Z.of_N (height chainState) - Z.of_N best) <$> bestHeight in
        let stalenessSecs := round_ms_to_secs (nowMs - 1000 * firstSeenTs chainState) in
        if validTimeValue (1000 * firstSeenTs chainState) then
          Normal
            ([if enabled then "sound-enabled" else "sound-disabled"]
             ++ [match diff with
                 | Some d => if -1 <=? d then "at-chainhead" else "not-at-chainhead"
                 | None => "not-at-chainhead"
                 end]
             ++ (if stalenessSecs <? 25 then ["just-increased"] else [])
             ++ (if Z.max (Chain.blockTimeSecs chain * 3)
                          (MAX_BACKEND_SOURCE_CHECK_PERIOD_SECS this) <? stalenessSecs
                 then ["stale"] else []))
        else Throw RangeError)
  | None => Normal ["missing-state"]
  end.

(** [renderTable]: a row for each chain and in it a cell for each source,
    chain by chain; the table is returned when no cell throws.  The clock
    is read in every cell; one reading stands for all of them. *)
Definition renderTable (this : t) (nowMs : Z) : completion (list (list (list string))) :=
  sequence
    (imap (fun chainIdx chain =>
             sequence
               (imap (fun sourceIdx source =>
                        cellClasses this nowMs chainIdx sourceIdx chain source)
                     (sources this)))
          (chains this)).

(** *** The alert preferences *)

Definition set_enableSoundFor (this : t) (prefs : json) : t :=
  {| sources := sources this; chains := chains this; states := states this;
     bestHeight := bestHeight this;
     MAX_BACKEND_SOURCE_CHECK_PERIOD_SECS := MAX_BACKEND_SOURCE_CHECK_PERIOD_SECS this;
     enableSoundFor := prefs |}.

(** [delete object[k]] on the members of an object. *)
Definition delete_property (k : code_units) (members : list (code_units * json))
  : list (code_units * json) :=
  List.filter (fun kv => negb (units_eqb k (fst kv))) members.

(** [object[k] = v]: one more member; a key that is there keeps its place
    and takes the new value (see [own_properties]). *)
Definition set_property (k : code_units) (v : json) (members : list (code_units * json))
  : list (code_units * json) :=
  members ++ [(k, v)].

(** [toggleEnableSoundFor].  The class body is strict code: a property
    cannot be created on a number, a string or a boolean (TypeError), and
    deleting a property that is not there does nothing.  An array would
    take the key as a named property, which [json] cannot hold: for an
    array that is not enabled the model gives no answer. *)
Definition toggleEnableSoundFor (this : t) (source chain : string)
  : option (completion t) :=
  let k := units (enableSoundForIdx source chain) in
  match getEnableSoundFor this source chain with
  | Throw e => Some (Throw e)
  | Normal true =>
      match enableSoundFor this with
      | JObj members =>
          Some (Normal (set_enableSoundFor this (JObj (delete_property k members))))
      | _ => Some (Normal this)
      end
  | Normal false =>
      match enableSoundFor this with
      | JObj members =>
          Some (Normal (set_enableSoundFor this (JObj (set_property k (JBool true) members))))
      | JArr _ => None
      | JNull | JBool _ | JNum _ _ | JStr _ => Some (Throw TypeError)
      end
  end.

(** [saveEnableSoundFor]: the text handed to [localStorage.setItem]. *)
Definition saveEnableSoundFor (this : t) : code_units :=
  JSON.stringify (enableSoundFor this).

(** The click listener of a cell or of a toggle button: toggle, then save.
    The result is the new state with the text written to the store.
    Redrawing is left out. *)
Definition soundToggleClick (this : t) (source chain : string)
  : option (completion (t * code_units)) :=
  match toggleEnableSoundFor this source chain with
  | None => None
  | Some (Throw e) => Some (Throw e)
  | Some (Normal this') => Some (Normal (this', saveEnableSoundFor this'))
  end.

End ChainsState.

(** ** class App: the connection loop *)

Module App.

Record t := {
  reconnectCount : N;
  chains : option ChainsState.t;
}.

(** A decoded frame; [Other] is any message whose [type] is neither
    ['init'] nor ['update']. *)
Inductive frame :=
| Init (sources : list Source.t) (chains : list Chain.t)
| Update (source chain : string) (msg : ChainState)
| Other.

(** [event.data]: a text [JSON.parse] rejects, or a frame. *)
Inductive data :=
| Unparsable
| Parsed (msg : frame).

Definition constructor : t := {| reconnectCount := 0; chains := None |}.

(** socket 'open': the banners change, the application state does not. *)
Definition on_open (app : t) : t := app.

(** socket 'message'; [item] is what the preference store holds when an
    init frame builds the new [ChainsState].  The result says whether a
    sound was played.  Redrawing is left out. *)
Definition on_message (item : option string) (app : t) (d : data)
  : t * completion bool :=
  match d with
  | Unparsable => (app, Throw SyntaxError)
  | Parsed msg =>
      let app := {| reconnectCount := 0; chains := chains app |} in
      match msg with
      | Init sources chains =>
          match ChainsState.constructor sources chains item with
          | Normal cs => ({| reconnectCount := reconnectCount app; chains := Some cs |},
                          Normal false)
          | Throw e => (app, Throw e)
          end
      | Update source chain m =>
          match chains app with
          | Some cs =>
              let '(cs', played) := ChainsState.update cs source chain m in
              ({| reconnectCount := reconnectCount app; chains := Some cs' |}, played)
          | None => (app, Throw TypeError)
          end
      | Other => (app, Normal false)
      end
  end.

(** [Math.min(60000, 1000 * reconnectCount * (Math.random() + 0.5))], in
    milliseconds, over the rationals. *)
Definition reconnectDelay (reconnectCount : N) (random : Q) : Q :=
  Qmin (60000 # 1) ((1000 # 1) * inject_Z (Z.of_N reconnectCount) * (random + (1 # 2))).

(** socket 'close': the delay is computed from the counter, the counter is
    incremented, and [connect] is scheduled after the delay. *)
Definition on_close (app : t) (random : Q) : t * Q :=
  ({| reconnectCount := reconnectCount app + 1; chains := chains app |},
   reconnectDelay (reconnectCount app) random).

(** socket 'error': the socket is closed, which raises 'close' next. *)
Definition on_error (app : t) : t := app.

Inductive event :=
| Open
| Message (item : option string) (d : data)
| Error
| Close (random : Q).

Definition step (app : t) (ev : event) : t :=
  match ev with
  | Open => on_open app
  | Message item d => fst (on_message item app d)
  | Error => on_error app
  | Close random => fst (on_close app random)
  end.

Definition run (app : t) (evs : list event) : t := fold_left step evs app.

End App.

(** ** The first revision of the script (assets/script.js)

    No preference store and no reconnect counter: the feed sends
    [first_seen_ts] and [last_checked_ts], an update plays the sound and
    marks the observation when the two are equal, and a lost connection is
    retried after ten to twenty seconds. *)

Module Legacy.

(** The payload of an update frame. *)
Record Frame := {
  height : N;
  hash : string;
  first_seen_ts : Z;
  last_checked_ts : Z;
}.

(** The frame object once [update] has set its [justIncreased]. *)
Record ChainState := {
  frame : Frame;
  justIncreased : bool;
}.

Record t := {
  sources : list string;
  sourcesFullName : list string;
  chains : list string;
  chainsFullName : list string;
  states : gmap Z ChainState;
  bestHeight : list N;
}.

Definition constructor (sources sourcesFullName chains chainsFullName : list string) : t :=
  {| sources := sources; sourcesFullName := sourcesFullName;
     chains := chains; chainsFullName := chainsFullName;
     states := ∅; bestHeight := replicate (length chains) 0%N |}.

Definition getIdx (this : t) (sourceIdx chainIdx : Z) : Z :=
  sourceIdx * Z.of_nat (length (chains this)) + chainIdx.

Definition getIdxByIds (this : t) (source chain : string) : Z :=
  getIdx this
    (findIndex (fun element => String.eqb element source) (sources this))
    (findIndex (fun element => String.eqb element chain) (chains this)).

Definition getChainIdx (this : t) (chain : string) : Z :=
  findIndex (fun element => String.eqb element chain) (chains this).

(** [update]: the state after the call and whether [playSound()] was
    called.  The frame object is stored first and marked afterwards; it is
    the stored object that carries the mark. *)
Definition update (this : t) (source chain : string) (chainState : Frame) : t * bool :=
  let stateIdx := getIdxByIds this source chain in
  let bestHeightIdx := getChainIdx this chain in
  let best :=
    match array_get (bestHeight this) bestHeightIdx with
    | Some b =>
        if (b <? height chainState)%N
        then <[Z.to_nat bestHeightIdx := height chainState]> (bestHeight this)
        else bestHeight this
    | None => bestHeight this
    end in
  let fresh := first_seen_ts chainState =? last_checked_ts chainState in
  ({| sources := sources this; sourcesFullName := sourcesFullName this;
      chains := chains this; chainsFullName := chainsFullName this;
      states := <[stateIdx := {| frame := chainState; justIncreased := fresh |}]>
                  (states this);
      bestHeight := best |},
   fresh).

(** The cell of [(sourceIdx, chainIdx)] in [renderTable]: the classes put
    on it.  The tooltip of a cell with an observation prints
    [toISOString()] of both timestamps first (RangeError on an invalid
    date); the classes are added after it. *)
Definition cellClasses (this : t) (chainIdx sourceIdx : nat) : completion (list string) :=
  let best := bestHeight this !! chainIdx in
  match states this !! getIdx this (Z.of_nat sourceIdx) (Z.of_nat chainIdx) with
  | Some chainState =>
      if validTimeValue (1000 * first_seen_ts (frame chainState))
         && validTimeValue (1000 * last_checked_ts (frame chainState))
      then
        let diff := (fun b => Z.of_N (height (frame chainState)) - Z.of_N b) <$> best in
        Normal
          ([match diff with
            | Some d => if -1 <=? d then "at-chainhead" else "not-at-chainhead"
            | None => "not-at-chainhead"
            end]
           ++ (if justIncreased chainState then ["just-increased"] else []))
      else Throw RangeError
  | None => Normal ["missing-state"]
  end.

(** socket 'close': [setTimeout(connect, 10000 + Math.random() * 10000)],
    in milliseconds.  The product and the sum are each rounded to a
    double: [round] is that rounding, a parameter. *)
Definition reconnectDelay (round : Q -> Q) (random : Q) : Q :=
  round ((10000 # 1) + round (random * (10000 # 1)))%Q.

End Legacy.

(** ** Runs of updates *)

(** An update event: [update(msg.source, msg.chain, msg)]. *)
Record UpdateEvent := {
  ev_source : string;
  ev_chain : string;
  ev_state : ChainState;
}.

Definition applyUpdate (this : ChainsState.t) (u : UpdateEvent) : ChainsState.t :=
  fst (ChainsState.update this (ev_source u) (ev_chain u) (ev_state u)).

Definition applyUpdates (this : ChainsState.t) (us : list UpdateEvent) : ChainsState.t :=
  fold_left applyUpdate us this.

(** The greatest height among the updates of [us] that name [chain]; zero
    when there is none. *)
Fixpoint maxHeightFor (chain : string) (us : list UpdateEvent) : N :=
  match us with
  | [] => 0%N
  | u :: r =>
      if String.eqb (ev_chain u) chain
      then N.max (height (ev_state u)) (maxHeightFor chain r)
      else maxHeightFor chain r
  end.

(** A source or chain id is known when [findIndex] finds it. *)
Definition knownSource (this : ChainsState.t) (source : string) : Prop :=
  0 <= findIndex (fun element => String.eqb (Source.id element) source)
         (ChainsState.sources this).

Definition knownChain (this : ChainsState.t) (chain : string) : Prop :=
  0 <= ChainsState.getChainIdx this chain.

(** The invariant behind last-write-wins: the array of best heights has one
    entry per chain, and an observation lying in a slot of chain index
    [chainIdx] is not higher than the best height of that chain. *)
Definition heightsBelowBest (this : ChainsState.t) : Prop :=
  length (ChainsState.bestHeight this) = length (ChainsState.chains this) /\
  forall (sourceIdx chainIdx : Z) (o : ChainState),
    0 <= chainIdx < Z.of_nat (length (ChainsState.chains this)) ->
    ChainsState.states this !! ChainsState.getIdx this sourceIdx chainIdx = Some o ->
    exists best,
      ChainsState.bestHeight this !! Z.to_nat chainIdx = Some best /\
      (height o <= best)%N.

(** The change test in the words of the specification: the previous
    observation is absent, or its height differs from the new height, or
    its hash differs from the new hash. *)
Definition changedSpec (previous : option ChainState) (current : ChainState) : bool :=
  match previous with
  | None => true
  | Some prev =>
      negb (height prev =? height current)%N || negb (String.eqb (hash prev) (hash current))
  end.


(** The array of best heights after an update of [chain] with height [h]:
    what [update] does to [bestHeight], by itself. *)
Definition raiseBest (chains : list Chain.t) (best : list N) (chain : string) (h : N)
  : list N :=
  let i := findIndex (fun element => String.eqb (Chain.id element) chain) chains in
  match array_get best i with
  | Some b => if (b <? h)%N then <[Z.to_nat i := h]> best else best
  | None => best
  end.

(** A store only this script has written to, starting from none: an object
    whose keys are keys of pairs, none twice, each with the value [true]. *)
Definition ownStore (prefs : json) : Prop :=
  exists members,
    prefs = JObj members /\
    NoDup (map fst members) /\
    Forall (fun kv =>
              snd kv = JBool true /\
              exists source chain,
                fst kv = units (ChainsState.enableSoundForIdx source chain))
           members.

(** A run of toggles; it stops at the first one that throws. *)
Fixpoint toggleAll (this : ChainsState.t) (pairs : list (string * string))
  : option (completion ChainsState.t) :=
  match pairs with
  | [] => Some (Normal this)
  | (source, chain) :: r =>
      match ChainsState.toggleEnableSoundFor this source chain with
      | Some (Normal this') => toggleAll this' r
      | other => other
      end
  end.

(** The text of a store of enabled pairs, character by character: what
    [JSON.stringify] writes for an object whose keys are the texts [keys]
    and whose values are all [true]. *)
Definition quote_ascii (c : ascii) : list ascii :=
  map ascii_of_N (quote_unit (N_of_ascii c)).

Definition key_text (cs : list ascii) : list ascii :=
  List.concat (map quote_ascii cs).

Definition member_text (k : list ascii) (tail : list ascii) : list ascii :=
  quote :: key_text k
  ++ quote :: ":"%char :: "t"%char :: "r"%char :: "u"%char :: "e"%char :: tail.

Fixpoint members_text (keys : list (list ascii)) (tail : list ascii) : list ascii :=
  match keys with
  | [] => tail
  | k :: r =>
      match r with
      | [] => member_text k tail
      | _ :: _ => member_text k (","%char :: members_text r tail)
      end
  end.

Definition object_text (keys : list (list ascii)) : list ascii :=
  "{"%char :: members_text keys ["}"%char].

(** The same member as code units. *)
Definition member_units (k : list ascii) : code_units :=
  QuoteJSONString (map N_of_ascii k) ++ 58%N :: units "true".

(** The object those keys build. *)
Definition enabled_members (keys : list (list ascii)) : list (code_units * json) :=
  map (fun k => (map N_of_ascii k, JBool true)) keys.

(** The update frames of a run of events, in order. *)
Fixpoint updatesOf (evs : list App.event) : list UpdateEvent :=
  match evs with
  | [] => []
  | App.Message _ (App.Parsed (App.Update source chain msg)) :: r =>
      {| ev_source := source; ev_chain := chain; ev_state := msg |} :: updatesOf r
  | _ :: r => updatesOf r
  end.

(** The store is unreadable whenever a message of the run arrives. *)
Definition storeCorruptAt (ev : App.event) : Prop :=
  match ev with
  | App.Message item _ => exists e, ChainsState.loadEnableSoundFor item = Throw e
  | _ => True
  end.

(** A word between double quotes. *)
Definition quoted (s : string) : string :=
  String quote (s ++ String quote EmptyString).

(** An id without the character of the key delimiter. *)
Definition hashFree (s : string) : Prop := ~ In "#"%char (list_ascii_of_string s).

Definition isClose (ev : App.event) : bool :=
  match ev with
  | App.Close _ => true
  | _ => false
  end.

Definition isParsedMessage (ev : App.event) : bool :=
  match ev with
  | App.Message _ (App.Parsed _) => true
  | _ => false
  end.

Definition isInit (ev : App.event) : bool :=
  match ev with
  | App.Message _ (App.Parsed (App.Init _ _)) => true
  | _ => false
  end.

(** ** A small session

    Two sources [A] and [B], one chain [X] with ten-minute blocks, and the
    updates of the scenario: [A] reports height 100, then [B] reports 99 and
    falls back to 80. *)

Module Scenario.

Definition A : Source.t :=
  {| Source.id := "A"; Source.shortName := "a"; Source.fullName := "Source A" |}.

Definition B : Source.t :=
  {| Source.id := "B"; Source.shortName := "b"; Source.fullName := "Source B" |}.

Definition X : Chain.t :=
  {| Chain.id := "X"; Chain.fullName := "Chain X"; Chain.blockTimeSecs := 600 |}.

Definition observation (h : N) (digest : string) (ts : Z) : ChainState :=
  {| height := h; hash := digest; firstSeenTs := ts |}.

Definition report (source chain : string) (h : N) (digest : string) (ts : Z) : UpdateEvent :=
  {| ev_source := source; ev_chain := chain; ev_state := observation h digest ts |}.

(** The state an init frame builds when the store holds [prefs]. *)
Definition fresh (prefs : json) : ChainsState.t :=
  {| ChainsState.sources := [A; B];
     ChainsState.chains := [X];
     ChainsState.states := ∅;
     ChainsState.bestHeight := [0%N];
     ChainsState.MAX_BACKEND_SOURCE_CHECK_PERIOD_SECS := 60;
     ChainsState.enableSoundFor := prefs |}.

Definition t0 : Z := 1650000000.

Definition session : list UpdateEvent :=
  [report "A" "X" 100 "h1" t0; report "B" "X" 99 "h2" (t0 + 1);
   report "B" "X" 80 "h3" (t0 + 2)].

(** The store after alerts were switched on for [(A, X)]: the text
    [saveEnableSoundFor] writes, and the object it parses to. *)
Definition prefsText : string :=
  "{" ++ String quote "A###X" ++ String quote ":true}".

Definition enabledAX : json := JObj [(units "A###X", JBool true)].

End Scenario.

(** * Properties *)

(** ** The model on small inputs *)

Example StringToNumber_hash : StringToNumber "h1" = NaN.
Proof. reflexivity. Qed.

Example StringToNumber_forms :
  StringToNumber " 100 " = Finite 100 0 /\
  StringToNumber "1e2" = Finite 1 2 /\
  StringToNumber "0x64" = Finite 100 0 /\
  StringToNumber "10.50" = Finite 1050 (-2) /\
  StringToNumber EmptyString = Finite 0 0 /\
  StringToNumber "-Infinity" = Infinity true /\
  StringToNumber "00000000000000000007a5e9" = NaN /\
  StringToNumber "1_000" = NaN.
Proof. repeat split; reflexivity. Qed.

Example loose_neq_forms :
  string_loose_neq_number "h1" 100 = true /\
  string_loose_neq_number "100" 100 = false /\
  string_loose_neq_number "1e2" 100 = false /\
  string_loose_neq_number "100.0" 100 = false /\
  string_loose_neq_number "100.5" 100 = true.
Proof. repeat split; reflexivity. Qed.

Example round_halves_up :
  round_ms_to_secs 24499 = 24 /\ round_ms_to_secs 24500 = 25 /\
  round_ms_to_secs (-2500) = -2 /\ round_ms_to_secs (-2501) = -3.
Proof. repeat split; reflexivity. Qed.

Example findIndex_first_or_minus_one :
  findIndex (Nat.eqb 7) [5; 7; 9; 7]%nat = 1 /\ findIndex (Nat.eqb 8) [5; 7; 9; 7]%nat = -1.
Proof. split; reflexivity. Qed.

Example parse_saved_preferences :
  JSON.parse Scenario.prefsText = Normal Scenario.enabledAX.
Proof. vm_compute. reflexivity. Qed.

Example parse_forms :
  JSON.parse " { } " = Normal (JObj []) /\
  JSON.parse "null" = Normal JNull /\
  JSON.parse "[-1.5E-2 , true,false , null, [[]]]"
  = Normal (JArr [JNum (-15) (-3); JBool true; JBool false; JNull; JArr [JArr []]]) /\
  JSON.parse EmptyString = Throw SyntaxError /\
  JSON.parse "[1,]" = Throw SyntaxError /\
  JSON.parse "01" = Throw SyntaxError /\
  JSON.parse "{} x" = Throw SyntaxError /\
  JSON.parse "undefined" = Throw SyntaxError.
Proof. repeat split; vm_compute; reflexivity. Qed.

Example slots_of_the_session :
  let st := Scenario.fresh (JObj []) in
  ChainsState.getIdxByIds st "A" "X" = 0 /\
  ChainsState.getIdxByIds st "B" "X" = 1 /\
  ChainsState.getIdxByIds st "Z" "X" = -1 /\
  ChainsState.getIdxByIds st "B" "Y" = 0.
Proof. repeat split; reflexivity. Qed.

(** ** JSON.parse always answers

    Each parsing function returns a text no longer than the one it was
    given, and the fuel [fuel_for] is never used up: a text either parses or
    is rejected. *)

Section ParserLengths.

Lemma skip_ws_length (cs : list ascii) : (length (skip_ws cs) <= length cs)%nat.
Proof.
  induction cs as [|c r IH]; simpl; [lia |].
  destruct (is_ws c); simpl; lia.
Qed.

Lemma take_char_length (c : ascii) (cs r : list ascii) :
  take_char c cs = Some r -> length cs = S (length r).
Proof.
  destruct cs as [|x cs]; simpl; [discriminate |].
  destruct (Ascii.eqb x c); [| discriminate]. now intros [= ->].
Qed.

Lemma expect_length (c : ascii) (cs r : list ascii) :
  expect c cs = Some r -> (length r < length cs)%nat.
Proof.
  unfold expect. intros H. apply take_char_length in H.
  pose proof (skip_ws_length cs). lia.
Qed.

Lemma strip_prefix_length (p cs r : list ascii) :
  strip_prefix p cs = Some r -> (length r <= length cs)%nat.
Proof.
  revert cs. induction p as [|a p IH]; intros cs; simpl.
  - intros [= ->]. lia.
  - destruct (take_char a cs) as [r'|] eqn:E; [| discriminate].
    intros H. apply IH in H. apply take_char_length in E. lia.
Qed.

Lemma span_digits_length (cs ds r : list ascii) :
  span_digits cs = (ds, r) -> (length r <= length cs)%nat.
Proof.
  revert ds r. induction cs as [|c cs IH]; intros ds r; simpl.
  - intros [= <- <-]. simpl. lia.
  - destruct (is_digit c).
    + destruct (span_digits cs) as [ds' r'] eqn:E. intros [= <- <-].
      specialize (IH _ _ eq_refl). lia.
    + intros [= <- <-]. simpl. lia.
Qed.

Lemma parse_string_body_length (n : nat) :
  forall (cs : list ascii) (acc s : code_units) (r : list ascii),
  (length cs <= n)%nat ->
  parse_string_body cs acc = Some (s, r) -> (length r < length cs)%nat.
Proof.
  induction n as [|n IH]; intros cs acc s r Hn; destruct cs as [|c cs];
    simpl in *; try discriminate; try lia.
  destruct (Ascii.eqb c quote); [intros [= <- <-]; lia |].
  destruct (Ascii.eqb c backslash).
  - destruct cs as [|e cs]; [discriminate |].
    destruct (Ascii.eqb e "u").
    + destruct cs as [|h1 [|h2 [|h3 [|h4 cs]]]]; try discriminate.
      destruct (hex4 h1 h2 h3 h4); [| discriminate].
      intros H. apply IH in H; simpl in *; lia.
    + destruct (escape e); [| discriminate].
      intros H. apply IH in H; simpl in *; lia.
  - destruct (N_of_ascii c <? 32)%N; [discriminate |].
    intros H. apply IH in H; simpl in *; lia.
Qed.

Lemma parse_frac_length (cs fp r : list ascii) :
  parse_frac cs = Some (fp, r) -> (length r <= length cs)%nat.
Proof.
  unfold parse_frac. destruct (take_char "." cs) as [r0|] eqn:E.
  - destruct (span_digits r0) as [ds r'] eqn:Es.
    apply take_char_length in E. apply span_digits_length in Es.
    destruct ds; [discriminate |]. intros [= <- <-]. lia.
  - intros [= <- <-]. lia.
Qed.

Lemma parse_exp_length (cs r : list ascii) (ex : Z) :
  parse_exp cs = Some (ex, r) -> (length r <= length cs)%nat.
Proof.
  unfold parse_exp.
  assert (He : forall r0,
             match take_char "e" cs with Some r => Some r | None => take_char "E" cs end
             = Some r0 -> length cs = S (length r0)).
  { intros r0. destruct (take_char "e" cs) eqn:E1.
    - intros [= <-]. now apply take_char_length in E1.
    - apply take_char_length. }
  destruct (match take_char "e" cs with Some r => Some r | None => take_char "E" cs end)
    as [r0|]; [| intros [= <- <-]; lia].
  specialize (He r0 eq_refl).
  assert (Hs : forall neg r1,
             match take_char "-" r0 with
             | Some r' => (true, r')
             | None => match take_char "+" r0 with
                       | Some r' => (false, r')
                       | None => (false, r0)
                       end
             end = (neg, r1) -> (length r1 <= length r0)%nat).
  { intros neg r1. destruct (take_char "-" r0) eqn:E1.
    - intros [= <- <-]. apply take_char_length in E1. lia.
    - destruct (take_char "+" r0) eqn:E2; intros [= <- <-].
      + apply take_char_length in E2. lia.
      + lia. }
  destruct (match take_char "-" r0 with Some r' => (true, r') | None => _ end) as [neg r1].
  specialize (Hs neg r1 eq_refl).
  destruct (span_digits r1) as [ds r2] eqn:Es. apply span_digits_length in Es.
  destruct ds; [discriminate |]. intros [= <- <-]. lia.
Qed.

Lemma parse_number_length (cs r : list ascii) (v : json) :
  parse_number cs = Some (v, r) -> (length r <= length cs)%nat.
Proof.
  unfold parse_number.
  assert (Hm : forall neg cs1,
             match take_char "-" cs with Some r => (true, r) | None => (false, cs) end
             = (neg, cs1) -> (length cs1 <= length cs)%nat).
  { intros neg cs1. destruct (take_char "-" cs) eqn:E; intros [= <- <-].
    - apply take_char_length in E. lia.
    - lia. }
  destruct (match take_char "-" cs with Some r => (true, r) | None => _ end) as [neg cs1].
  specialize (Hm neg cs1 eq_refl).
  destruct (span_digits cs1) as [ip r1] eqn:Es. apply span_digits_length in Es.
  destruct ip as [|d ds]; [discriminate |].
  destruct (_ && _); [discriminate |].
  destruct (parse_frac r1) as [[fp r2]|] eqn:Ef; [| discriminate].
  apply parse_frac_length in Ef.
  destruct (parse_exp r2) as [[ex r3]|] eqn:Ee; [| discriminate].
  apply parse_exp_length in Ee.
  intros [= <- <-]. lia.
Qed.

Ltac head_match :=
  match goal with
  | |- (match ?x with _ => _ end = _) -> _ => destruct x eqn:?
  | |- match ?x with _ => _ end <> _ => destruct x eqn:?
  end.

Ltac length_facts :=
  repeat match goal with
         | H : take_char _ _ = Some _ |- _ => apply take_char_length in H
         | H : expect _ _ = Some _ |- _ => apply expect_length in H
         | H : take_word _ _ = Some _ |- _ => apply strip_prefix_length in H
         | H : parse_string_body _ _ = Some _ |- _ =>
             apply (parse_string_body_length _ _ _ _ _ (le_n _)) in H
         | H : parse_number _ = Some _ |- _ => apply parse_number_length in H
         end.

Lemma parse_rest_length (fuel : nat) :
  (forall cs v r, parse_value fuel cs = Ok (v, r) -> (length r <= length cs)%nat) /\
  (forall cs acc v r, parse_elements fuel cs acc = Ok (v, r) -> (length r <= length cs)%nat) /\
  (forall cs acc v r, parse_members fuel cs acc = Ok (v, r) -> (length r <= length cs)%nat).
Proof.
  induction fuel as [|f (IHv & IHe & IHm)]; [repeat split; discriminate |].
  repeat split.
  - intros cs v r. cbn [parse_value]. cbv zeta. pose proof (skip_ws_length cs).
    repeat head_match; try discriminate; length_facts;
      (intros [= <- <-] ||
       (intros H'; first [apply IHe in H' | apply IHm in H'])); lia.
  - intros cs acc v r. cbn [parse_elements].
    repeat head_match; try discriminate; length_facts;
      repeat match goal with H : parse_value f _ = Ok _ |- _ => apply IHv in H end;
      (intros [= <- <-] || (intros H'; apply IHe in H')); lia.
  - intros cs acc v r. cbn [parse_members].
    repeat head_match; try discriminate; length_facts;
      repeat match goal with H : parse_value f _ = Ok _ |- _ => apply IHv in H end;
      (intros [= <- <-] || (intros H'; apply IHm in H')); lia.
Qed.

Lemma parse_fuel (fuel : nat) :
  (forall cs, (2 * length cs + 1 <= fuel)%nat -> parse_value fuel cs <> OutOfFuel) /\
  (forall cs acc, (2 * length cs + 2 <= fuel)%nat -> parse_elements fuel cs acc <> OutOfFuel) /\
  (forall cs acc, (2 * length cs + 2 <= fuel)%nat -> parse_members fuel cs acc <> OutOfFuel).
Proof.
  induction fuel as [|f (IHv & IHe & IHm)]; [repeat split; intros; lia |].
  repeat split.
  - intros cs Hf. cbn [parse_value]. cbv zeta. pose proof (skip_ws_length cs).
    repeat head_match; try discriminate; length_facts;
      first [apply IHe | apply IHm]; lia.
  - intros cs acc Hf. cbn [parse_elements].
    repeat head_match; try discriminate; length_facts;
      repeat match goal with
             | H : parse_value f _ = Ok _ |- _ => apply parse_rest_length in H
             | H : parse_value f _ = OutOfFuel |- _ => apply IHv in H; [contradiction | lia]
             end;
      try (apply IHe; lia).
  - intros cs acc Hf. cbn [parse_members].
    repeat head_match; try discriminate; length_facts;
      repeat match goal with
             | H : parse_value f _ = Ok _ |- _ => apply parse_rest_length in H
             | H : parse_value f _ = OutOfFuel |- _ => apply IHv in H; [contradiction | lia]
             end;
      try (apply IHm; lia).
Qed.

(** The fuel [JSON.parse] gives is enough. *)
Lemma parse_value_fuel (cs : list ascii) : parse_value (fuel_for cs) cs <> OutOfFuel.
Proof. apply parse_fuel. unfold fuel_for. lia. Qed.

End ParserLengths.

(** ** findIndex *)

Section FindIndex.
Context {A : Type} (p : A -> bool).

Lemma findIndex_from_range (l : list A) (k : Z) :
  findIndex_from p l k = -1 \/
  (k <= findIndex_from p l k < k + Z.of_nat (length l)).
Proof.
  revert k. induction l as [|x r IH]; intros k; simpl.
  - now left.
  - destruct (p x).
    + right. lia.
    + destruct (IH (k + 1)) as [E | E]; [left | right]; lia.
Qed.

Lemma findIndex_from_found (l : list A) (k : Z) :
  0 <= k -> 0 <= findIndex_from p l k ->
  exists x, l !! Z.to_nat (findIndex_from p l k - k) = Some x /\ p x = true.
Proof.
  revert k. induction l as [|x r IH]; intros k Hk Hi; simpl in *.
  - lia.
  - destruct (p x) eqn:Hp.
    + exists x. replace (k - k) with 0 by lia. now split.
    + destruct (IH (k + 1)) as (y & Hy & Hpy); [lia | assumption |].
      exists y. split; [| assumption].
      destruct (findIndex_from_range r (k + 1)) as [E | E]; [lia |].
      replace (Z.to_nat (findIndex_from p r (k + 1) - k))
        with (S (Z.to_nat (findIndex_from p r (k + 1) - (k + 1)))) by lia.
      exact Hy.
Qed.

Lemma findIndex_range (l : list A) :
  findIndex p l = -1 \/ 0 <= findIndex p l < Z.of_nat (length l).
Proof. unfold findIndex. destruct (findIndex_from_range l 0); [left | right]; lia. Qed.

Lemma findIndex_found (l : list A) :
  0 <= findIndex p l ->
  exists x, l !! Z.to_nat (findIndex p l) = Some x /\ p x = true.
Proof.
  intros H. unfold findIndex in *.
  destruct (findIndex_from_found l 0) as (x & Hx & Hp); [lia | assumption |].
  exists x. now rewrite Z.sub_0_r in Hx.
Qed.
End FindIndex.

(** Two ids found at the same index are the same id. *)
Lemma getChainIdx_inj (this : ChainsState.t) (c c' : string) :
  0 <= ChainsState.getChainIdx this c ->
  ChainsState.getChainIdx this c = ChainsState.getChainIdx this c' ->
  c = c'.
Proof.
  unfold ChainsState.getChainIdx. intros H E.
  destruct (findIndex_found _ _ H) as (x & Hx & Hp).
  assert (H' : 0 <= findIndex (fun element => String.eqb (Chain.id element) c')
                       (ChainsState.chains this)) by lia.
  destruct (findIndex_found _ _ H') as (y & Hy & Hq).
  rewrite <- E in Hy. rewrite Hx in Hy. injection Hy as ->.
  apply String.eqb_eq in Hp, Hq. congruence.
Qed.

Lemma sourceIdx_inj (this : ChainsState.t) (s s' : string) :
  let idx x := findIndex (fun element => String.eqb (Source.id element) x)
                 (ChainsState.sources this) in
  0 <= idx s -> idx s = idx s' -> s = s'.
Proof.
  intros idx H E. unfold idx in *.
  destruct (findIndex_found _ _ H) as (x & Hx & Hp).
  assert (H' : 0 <= findIndex (fun element => String.eqb (Source.id element) s')
                       (ChainsState.sources this)) by lia.
  destruct (findIndex_found _ _ H') as (y & Hy & Hq).
  rewrite <- E in Hy. rewrite Hx in Hy. injection Hy as ->.
  apply String.eqb_eq in Hp, Hq. congruence.
Qed.

(** ** What one update does to the state *)

Section UpdateFrame.
Variables (this : ChainsState.t) (source chain : string) (chainState : ChainState).

Let this' := fst (ChainsState.update this source chain chainState).

Lemma update_sources : ChainsState.sources this' = ChainsState.sources this.
Proof.
  unfold this', ChainsState.update; simpl.
  destruct (array_get _ _) as [best|]; [destruct (best <? _)%N |]; reflexivity.
Qed.

Lemma update_chains : ChainsState.chains this' = ChainsState.chains this.
Proof.
  unfold this', ChainsState.update; simpl.
  destruct (array_get _ _) as [best|]; [destruct (best <? _)%N |]; reflexivity.
Qed.

Lemma update_enableSoundFor :
  ChainsState.enableSoundFor this' = ChainsState.enableSoundFor this.
Proof.
  unfold this', ChainsState.update; simpl.
  destruct (array_get _ _) as [best|]; [destruct (best <? _)%N |]; reflexivity.
Qed.

(** The observations: exactly one slot is written. *)
Lemma update_states :
  ChainsState.states this' =
  <[ChainsState.getIdxByIds this source chain := chainState]> (ChainsState.states this).
Proof.
  unfold this', ChainsState.update; simpl.
  destruct (array_get _ _) as [best|]; [destruct (best <? _)%N |]; reflexivity.
Qed.

Lemma update_bestHeight_length :
  length (ChainsState.bestHeight this') = length (ChainsState.bestHeight this).
Proof.
  unfold this', ChainsState.update; simpl.
  destruct (array_get _ _) as [best|]; [destruct (best <? _)%N |]; simpl;
    rewrite ?length_insert; reflexivity.
Qed.

(** The entry of the update's chain becomes the larger of the old entry and
    the new height. *)
Lemma update_bestHeight_same (best : N) :
  0 <= ChainsState.getChainIdx this chain ->
  ChainsState.bestHeight this !! Z.to_nat (ChainsState.getChainIdx this chain) = Some best ->
  ChainsState.bestHeight this' !! Z.to_nat (ChainsState.getChainIdx this chain)
  = Some (N.max best (height chainState)).
Proof.
  intros Hi Hb. unfold this', ChainsState.update; simpl.
  change (ChainsState.getChainIdx (ChainsState.set_states this _) chain)
    with (ChainsState.getChainIdx this chain).
  unfold array_get. destruct (Z.ltb_spec (ChainsState.getChainIdx this chain) 0); [lia |].
  rewrite Hb. destruct (N.ltb_spec best (height chainState)); simpl.
  - rewrite list_lookup_insert_eq by (apply lookup_lt_Some in Hb; exact Hb).
    f_equal. lia.
  - rewrite Hb. f_equal. lia.
Qed.

(** Every other entry is left alone; so is every entry when the chain is
    unknown. *)
Lemma update_bestHeight_other (j : nat) :
  ChainsState.getChainIdx this chain < 0 \/
  j <> Z.to_nat (ChainsState.getChainIdx this chain) ->
  ChainsState.bestHeight this' !! j = ChainsState.bestHeight this !! j.
Proof.
  intros Hj. unfold this', ChainsState.update; simpl.
  change (ChainsState.getChainIdx (ChainsState.set_states this _) chain)
    with (ChainsState.getChainIdx this chain).
  unfold array_get. destruct (Z.ltb_spec (ChainsState.getChainIdx this chain) 0).
  - reflexivity.
  - destruct (_ !! Z.to_nat _) as [best|]; [| reflexivity].
    destruct (best <? _)%N; [| reflexivity]. simpl.
    apply list_lookup_insert_ne. destruct Hj; [lia | congruence].
Qed.

(** No entry ever decreases. *)
Lemma update_bestHeight_mono (j : nat) (best : N) :
  ChainsState.bestHeight this !! j = Some best ->
  exists best', ChainsState.bestHeight this' !! j = Some best' /\ (best <= best')%N.
Proof.
  intros Hb.
  destruct (Z.ltb_spec (ChainsState.getChainIdx this chain) 0) as [Hneg | Hpos].
  - exists best. rewrite update_bestHeight_other by (left; exact Hneg). split; [exact Hb | lia].
  - destruct (decide (j = Z.to_nat (ChainsState.getChainIdx this chain))) as [-> | Hne].
    + exists (N.max best (height chainState)).
      split; [apply update_bestHeight_same; assumption | lia].
    + exists best. rewrite update_bestHeight_other by (right; exact Hne).
      split; [exact Hb | lia].
Qed.

End UpdateFrame.

(** A run of updates keeps the registry. *)
Lemma applyUpdates_chains (us : list UpdateEvent) (this : ChainsState.t) :
  ChainsState.chains (applyUpdates this us) = ChainsState.chains this.
Proof.
  unfold applyUpdates. revert this.
  induction us as [|u r IH]; intros this; simpl; [reflexivity |].
  rewrite IH. apply update_chains.
Qed.

Lemma getChainIdx_applyUpdate (this : ChainsState.t) (u : UpdateEvent) (c : string) :
  ChainsState.getChainIdx (applyUpdate this u) c = ChainsState.getChainIdx this c.
Proof. unfold ChainsState.getChainIdx, applyUpdate. now rewrite update_chains. Qed.

(** The entry of a known chain after a run: the old entry, raised to the
    greatest height the run carries for that chain. *)
Lemma applyUpdates_bestHeight (us : list UpdateEvent) :
  forall (this : ChainsState.t) (c : string) (best : N),
  0 <= ChainsState.getChainIdx this c ->
  ChainsState.bestHeight this !! Z.to_nat (ChainsState.getChainIdx this c) = Some best ->
  ChainsState.bestHeight (applyUpdates this us) !! Z.to_nat (ChainsState.getChainIdx this c)
  = Some (N.max best (maxHeightFor c us)).
Proof.
  induction us as [|u r IH]; intros this c best Hi Hb.
  - simpl. rewrite Hb. f_equal. lia.
  - change (applyUpdates this (u :: r)) with (applyUpdates (applyUpdate this u) r).
    simpl maxHeightFor.
    rewrite <- (getChainIdx_applyUpdate this u c) in Hi |- *.
    destruct (String.eqb_spec (ev_chain u) c) as [E | Hne].
    + rewrite (IH _ c (N.max best (height (ev_state u)))); [f_equal; lia | exact Hi |].
      rewrite getChainIdx_applyUpdate in Hi |- *.
      unfold applyUpdate. rewrite E. now apply update_bestHeight_same.
    + apply IH; [exact Hi |].
      rewrite getChainIdx_applyUpdate in Hi |- *.
      unfold applyUpdate. rewrite update_bestHeight_other; [exact Hb |].
      destruct (Z.ltb_spec (ChainsState.getChainIdx this (ev_chain u)) 0); [now left | right].
      intros E. apply Hne. symmetry. apply (getChainIdx_inj this); [exact Hi | lia].
Qed.


(** ** The best height of a chain *)

Lemma maxHeightFor_upper (c : string) (us : list UpdateEvent) (u : UpdateEvent) :
  In u us -> ev_chain u = c -> (height (ev_state u) <= maxHeightFor c us)%N.
Proof.
  induction us as [|v r IH]; simpl; [tauto |].
  intros [-> | Hin] Hc.
  - rewrite Hc, String.eqb_refl. lia.
  - specialize (IH Hin Hc). destruct (String.eqb (ev_chain v) c); lia.
Qed.

Lemma maxHeightFor_attained (c : string) (us : list UpdateEvent) :
  maxHeightFor c us = 0%N \/
  exists u, In u us /\ ev_chain u = c /\ height (ev_state u) = maxHeightFor c us.
Proof.
  induction us as [|v r IH]; simpl; [now left |].
  destruct (String.eqb_spec (ev_chain v) c) as [E | Hne].
  - destruct (N.max_spec (height (ev_state v)) (maxHeightFor c r)) as [[_ ->] | [_ ->]].
    + destruct IH as [-> | (u & Hin & Hc & Hu)]; [now left | right].
      exists u. auto.
    + right. exists v. auto.
  - destruct IH as [-> | (u & Hin & Hc & Hu)]; [now left | right].
    exists u. auto.
Qed.

Lemma constructor_bestHeight (sources : list Source.t) (chains : list Chain.t)
    (item : option string) (this : ChainsState.t) :
  ChainsState.constructor sources chains item = Normal this ->
  ChainsState.chains this = chains /\
  ChainsState.states this = ∅ /\
  ChainsState.bestHeight this = replicate (length chains) 0%N.
Proof.
  unfold ChainsState.constructor, bind.
  destruct (ChainsState.loadEnableSoundFor item); [| discriminate].
  intros [= <-]. auto.
Qed.

(** C1. After an init, every entry of [bestHeight] is zero; after any run
    of updates the entry of a chain of the registry is the greatest height
    the run carried for that chain, whatever the sources, and one more
    update never lowers it. *)
Theorem bestHeight_is_max_since_init
    (sources : list Source.t) (chains : list Chain.t) (item : option string)
    (this : ChainsState.t) :
  ChainsState.constructor sources chains item = Normal this ->
  ChainsState.bestHeight this = replicate (length chains) 0%N /\
  forall (us : list UpdateEvent) (c : string),
    knownChain this c ->
    let entry (st : ChainsState.t) :=
      ChainsState.bestHeight st !! Z.to_nat (ChainsState.getChainIdx this c) in
    entry (applyUpdates this us) = Some (maxHeightFor c us) /\
    (forall u, In u us -> ev_chain u = c ->
       (height (ev_state u) <= maxHeightFor c us)%N) /\
    (forall u, exists best,
       entry (applyUpdates this (us ++ [u])) = Some best /\
       (maxHeightFor c us <= best)%N).
Proof.
  intros Hnew. destruct (constructor_bestHeight _ _ _ _ Hnew) as (Hch & _ & Hbest).
  split; [exact Hbest |].
  intros us c Hknown entry. unfold knownChain in Hknown.
  assert (H0 : ChainsState.bestHeight this !! Z.to_nat (ChainsState.getChainIdx this c)
               = Some 0%N).
  { rewrite Hbest. apply lookup_replicate_2.
    unfold ChainsState.getChainIdx in *. rewrite Hch in *.
    destruct (findIndex_range (fun element => String.eqb (Chain.id element) c) chains); lia. }
  assert (Hrun : entry (applyUpdates this us) = Some (maxHeightFor c us)).
  { unfold entry. rewrite (applyUpdates_bestHeight us this c 0%N Hknown H0).
    f_equal. lia. }
  split; [exact Hrun |]. split.
  - intros u. apply maxHeightFor_upper.
  - intros u. unfold applyUpdates. rewrite fold_left_app. simpl.
    apply update_bestHeight_mono. exact Hrun.
Qed.

Lemma bestHeight_is_max_since_init_witness :
  ChainsState.bestHeight (applyUpdates (Scenario.fresh (JObj [])) Scenario.session)
    !! 0%nat = Some 100%N.
Proof.
  destruct (bestHeight_is_max_since_init [Scenario.A; Scenario.B] [Scenario.X] None
              (Scenario.fresh (JObj [])) eq_refl) as [_ H].
  destruct (H Scenario.session "X") as [E _].
  - unfold knownChain. vm_compute. discriminate.
  - exact E.
Defined.


(** ** Slots of the state matrix *)

Lemma getIdx_inj (this : ChainsState.t) (sourceIdx chainIdx sourceIdx' chainIdx' : Z) :
  let n := Z.of_nat (length (ChainsState.chains this)) in
  0 <= chainIdx < n -> 0 <= chainIdx' < n ->
  ChainsState.getIdx this sourceIdx chainIdx = ChainsState.getIdx this sourceIdx' chainIdx' ->
  sourceIdx = sourceIdx' /\ chainIdx = chainIdx'.
Proof.
  cbv zeta. unfold ChainsState.getIdx. intros Hc Hc' E.
  assert (sourceIdx = sourceIdx') by nia.
  subst. split; [reflexivity | lia].
Qed.

Lemma knownChain_range (this : ChainsState.t) (c : string) :
  knownChain this c ->
  0 <= ChainsState.getChainIdx this c < Z.of_nat (length (ChainsState.chains this)).
Proof.
  unfold knownChain, ChainsState.getChainIdx. intros H.
  destruct (findIndex_range (fun element => String.eqb (Chain.id element) c)
              (ChainsState.chains this)); lia.
Qed.

(** C9. Two distinct pairs of the registry have distinct slots, so an
    update of one known pair leaves the observation of every other known
    pair as it was. *)
Theorem known_pairs_do_not_interfere
    (this : ChainsState.t) (source chain source' chain' : string)
    (chainState : ChainState) :
  knownSource this source -> knownChain this chain ->
  knownSource this source' -> knownChain this chain' ->
  (source, chain) <> (source', chain') ->
  ChainsState.getIdxByIds this source chain <> ChainsState.getIdxByIds this source' chain' /\
  ChainsState.states (fst (ChainsState.update this source chain chainState))
    !! ChainsState.getIdxByIds this source' chain'
  = ChainsState.states this !! ChainsState.getIdxByIds this source' chain'.
Proof.
  intros Hs Hc Hs' Hc' Hne.
  assert (Hslot : ChainsState.getIdxByIds this source chain
                  <> ChainsState.getIdxByIds this source' chain').
  { unfold ChainsState.getIdxByIds. intros E.
    apply getIdx_inj in E; try (apply knownChain_range; assumption).
    destruct E as [Es Ec].
    apply Hne. f_equal.
    - apply (sourceIdx_inj this); assumption.
    - apply (getChainIdx_inj this); [exact Hc | exact Ec]. }
  split; [exact Hslot |].
  rewrite update_states. now apply lookup_insert_ne.
Qed.

Lemma known_pairs_do_not_interfere_witness :
  let st := applyUpdate (Scenario.fresh (JObj [])) (Scenario.report "A" "X" 100 "h1" Scenario.t0) in
  ChainsState.states
    (fst (ChainsState.update st "B" "X" (Scenario.observation 99 "h2" (Scenario.t0 + 1))))
    !! ChainsState.getIdxByIds st "A" "X"
  = Some (Scenario.observation 100 "h1" Scenario.t0).
Proof.
  intros st.
  destruct (known_pairs_do_not_interfere st "B" "X" "A" "X"
              (Scenario.observation 99 "h2" (Scenario.t0 + 1))) as [_ E].
  - unfold knownSource. vm_compute. discriminate.
  - unfold knownChain. vm_compute. discriminate.
  - unfold knownSource. vm_compute. discriminate.
  - unfold knownChain. vm_compute. discriminate.
  - discriminate.
  - rewrite E. reflexivity.
Defined.

(** ** When the best heights stay as they are *)

Lemma update_bestHeight_unknown (this : ChainsState.t) (source chain : string)
    (chainState : ChainState) :
  ~ knownChain this chain ->
  ChainsState.bestHeight (fst (ChainsState.update this source chain chainState))
  = ChainsState.bestHeight this.
Proof.
  unfold knownChain. intros H. unfold ChainsState.update; simpl.
  change (ChainsState.getChainIdx (ChainsState.set_states this _) chain)
    with (ChainsState.getChainIdx this chain).
  unfold array_get. destruct (Z.ltb_spec (ChainsState.getChainIdx this chain) 0); [| lia].
  reflexivity.
Qed.

Lemma update_bestHeight_not_higher (this : ChainsState.t) (source chain : string)
    (chainState : ChainState) (best : N) :
  ChainsState.bestHeight this !! Z.to_nat (ChainsState.getChainIdx this chain) = Some best ->
  (height chainState <= best)%N ->
  ChainsState.bestHeight (fst (ChainsState.update this source chain chainState))
  = ChainsState.bestHeight this.
Proof.
  intros Hb Hle. unfold ChainsState.update; simpl.
  change (ChainsState.getChainIdx (ChainsState.set_states this _) chain)
    with (ChainsState.getChainIdx this chain).
  unfold array_get. destruct (_ <? 0); [reflexivity |].
  rewrite Hb. destruct (N.ltb_spec best (height chainState)); [lia | reflexivity].
Qed.

Lemma heightsBelowBest_constructor (sources : list Source.t) (chains : list Chain.t)
    (item : option string) (this : ChainsState.t) :
  ChainsState.constructor sources chains item = Normal this -> heightsBelowBest this.
Proof.
  intros H. destruct (constructor_bestHeight _ _ _ _ H) as (Hc & Hs & Hb).
  split.
  - rewrite Hb, Hc. apply length_replicate.
  - intros si ci o _. rewrite Hs, lookup_empty. discriminate.
Qed.

Lemma heightsBelowBest_update (this : ChainsState.t) (u : UpdateEvent) :
  knownChain this (ev_chain u) -> heightsBelowBest this ->
  heightsBelowBest (applyUpdate this u).
Proof.
  intros Hk [Hlen Hinv]. unfold applyUpdate.
  pose proof (knownChain_range this _ Hk) as Hrange.
  destruct (lookup_lt_is_Some_2 (ChainsState.bestHeight this)
              (Z.to_nat (ChainsState.getChainIdx this (ev_chain u)))) as [b0 Hb0]; [lia |].
  split.
  - rewrite update_bestHeight_length, update_chains. exact Hlen.
  - intros si ci o. rewrite update_chains, update_states.
    intros Hci.
    replace (ChainsState.getIdx _ si ci) with (ChainsState.getIdx this si ci)
      by (unfold ChainsState.getIdx; now rewrite update_chains).
    destruct (decide (ChainsState.getIdxByIds this (ev_source u) (ev_chain u)
                      = ChainsState.getIdx this si ci)) as [E | Hne].
    + rewrite E, lookup_insert_eq. intros [= <-].
      unfold ChainsState.getIdxByIds in E.
      apply getIdx_inj in E; [| exact Hrange | exact Hci].
      destruct E as [_ <-].
      exists (N.max b0 (height (ev_state u))).
      split; [now apply update_bestHeight_same | lia].
    + rewrite lookup_insert_ne by exact Hne. intros Ho.
      destruct (Hinv si ci o Hci Ho) as (b & Hb & Hle).
      destruct (update_bestHeight_mono this (ev_source u) (ev_chain u) (ev_state u)
                  _ _ Hb) as (b' & Hb' & Hle').
      exists b'. split; [exact Hb' | lia].
Qed.

Lemma knownChain_applyUpdates (us : list UpdateEvent) (this : ChainsState.t) (c : string) :
  knownChain (applyUpdates this us) c <-> knownChain this c.
Proof.
  unfold knownChain, ChainsState.getChainIdx. now rewrite applyUpdates_chains.
Qed.

Lemma heightsBelowBest_applyUpdates (us : list UpdateEvent) (this : ChainsState.t) :
  Forall (fun u => knownChain this (ev_chain u)) us ->
  heightsBelowBest this -> heightsBelowBest (applyUpdates this us).
Proof.
  unfold applyUpdates. revert this.
  induction us as [|u r IH]; intros this Hall Hinv; simpl; [exact Hinv |].
  inversion Hall as [|? ? Hu Hr]; subst.
  apply IH.
  - eapply Forall_impl; [exact Hr |]. intros v Hv. simpl in Hv.
    unfold knownChain in *. now rewrite getChainIdx_applyUpdate.
  - now apply heightsBelowBest_update.
Qed.


(** ** Last write wins *)

(** C10 fails without a condition on the run: an update that names an
    unknown chain is stored in the slot of another pair and raises no best
    height, so a later, lower update of that pair does raise it. *)
Lemma lower_height_can_raise_bestHeight :
  let st := applyUpdate (Scenario.fresh (JObj []))
              (Scenario.report "B" "Y" 500 "h0" Scenario.t0) in
  let st' := applyUpdate st (Scenario.report "A" "X" 100 "h1" (Scenario.t0 + 1)) in
  knownSource st "A" /\ knownChain st "X" /\
  height <$> ChainsState.states st !! ChainsState.getIdxByIds st "A" "X" = Some 500%N /\
  ChainsState.bestHeight st !! Z.to_nat (ChainsState.getChainIdx st "X") = Some 0%N /\
  ChainsState.bestHeight st' !! Z.to_nat (ChainsState.getChainIdx st "X") = Some 100%N.
Proof.
  cbv zeta. unfold knownSource, knownChain.
  split; [vm_compute; discriminate |].
  split; [vm_compute; discriminate |].
  repeat split; vm_compute; reflexivity.
Qed.

(** C10, amended. When every update since the init named a chain of the
    registry, an update of a pair with a height below the stored one
    replaces the stored observation and leaves every best height as it
    was.  The source of the pair may be any. *)
Theorem lower_height_overwrites_and_keeps_best
    (sources : list Source.t) (chains : list Chain.t) (item : option string)
    (this0 : ChainsState.t) (us : list UpdateEvent)
    (source chain : string) (prev chainState : ChainState) :
  ChainsState.constructor sources chains item = Normal this0 ->
  Forall (fun u => knownChain this0 (ev_chain u)) us ->
  let this := applyUpdates this0 us in
  knownChain this chain ->
  ChainsState.states this !! ChainsState.getIdxByIds this source chain = Some prev ->
  (height chainState < height prev)%N ->
  let this' := fst (ChainsState.update this source chain chainState) in
  ChainsState.states this' !! ChainsState.getIdxByIds this source chain = Some chainState /\
  ChainsState.bestHeight this' = ChainsState.bestHeight this.
Proof.
  intros Hnew Hall this Hk Hprev Hlt this'.
  split.
  - unfold this'. rewrite update_states. apply lookup_insert_eq.
  - assert (Hinv : heightsBelowBest this).
    { apply heightsBelowBest_applyUpdates; [exact Hall |].
      eapply heightsBelowBest_constructor; exact Hnew. }
    destruct Hinv as [_ Hinv].
    destruct (Hinv _ _ prev (knownChain_range this chain Hk) Hprev) as (best & Hb & Hle).
    apply (update_bestHeight_not_higher this source chain chainState best Hb). lia.
Qed.

Lemma lower_height_overwrites_and_keeps_best_witness :
  let this := applyUpdates (Scenario.fresh (JObj []))
                [Scenario.report "A" "X" 100 "h1" Scenario.t0;
                 Scenario.report "B" "X" 99 "h2" (Scenario.t0 + 1)] in
  let this' := fst (ChainsState.update this "B" "X"
                      (Scenario.observation 80 "h3" (Scenario.t0 + 2))) in
  ChainsState.states this' !! ChainsState.getIdxByIds this "B" "X"
  = Some (Scenario.observation 80 "h3" (Scenario.t0 + 2)) /\
  ChainsState.bestHeight this' = ChainsState.bestHeight this.
Proof.
  apply (lower_height_overwrites_and_keeps_best
           [Scenario.A; Scenario.B] [Scenario.X] None (Scenario.fresh (JObj []))
           [Scenario.report "A" "X" 100 "h1" Scenario.t0;
            Scenario.report "B" "X" 99 "h2" (Scenario.t0 + 1)]
           "B" "X" (Scenario.observation 99 "h2" (Scenario.t0 + 1))).
  - reflexivity.
  - repeat constructor; unfold knownChain; vm_compute; discriminate.
  - unfold knownChain. vm_compute. discriminate.
  - vm_compute. reflexivity.
  - vm_compute. reflexivity.
Defined.

(** ** Updates that name an unknown id *)

(** C3 fails: nothing rejects an update.  With an unknown source the
    observation lands in a negative slot and the best height of the chain is
    raised; with an unknown chain it lands in the slot of another pair. *)
Lemma unknown_ids_mutate_state :
  let st := Scenario.fresh (JObj []) in
  let viaSource := applyUpdate st (Scenario.report "Z" "X" 7 "h7" Scenario.t0) in
  let viaChain := applyUpdate st (Scenario.report "B" "Y" 500 "h0" Scenario.t0) in
  ~ knownSource st "Z" /\ ~ knownChain st "Y" /\
  ChainsState.states st !! (-1) = None /\
  ChainsState.states viaSource !! (-1) = Some (Scenario.observation 7 "h7" Scenario.t0) /\
  ChainsState.bestHeight st = [0%N] /\
  ChainsState.bestHeight viaSource = [7%N] /\
  ChainsState.states st !! ChainsState.getIdxByIds st "A" "X" = None /\
  ChainsState.states viaChain !! ChainsState.getIdxByIds st "A" "X"
  = Some (Scenario.observation 500 "h0" Scenario.t0).
Proof.
  cbv zeta. unfold knownSource, knownChain.
  split; [vm_compute; intros H; apply H; reflexivity |].
  split; [vm_compute; intros H; apply H; reflexivity |].
  repeat split; vm_compute; reflexivity.
Qed.

(** C3, amended. An update with an unknown source or chain is applied like
    any other: its observation is stored in the slot computed with [-1] for
    the missing index, every other slot is as before, and when the chain is
    unknown every best height is as before. *)
Theorem unknown_ids_write_one_slot
    (this : ChainsState.t) (source chain : string) (chainState : ChainState) :
  ~ knownSource this source \/ ~ knownChain this chain ->
  let this' := fst (ChainsState.update this source chain chainState) in
  let slot := ChainsState.getIdxByIds this source chain in
  ChainsState.states this' !! slot = Some chainState /\
  (forall j, j <> slot -> ChainsState.states this' !! j = ChainsState.states this !! j) /\
  (~ knownChain this chain -> ChainsState.bestHeight this' = ChainsState.bestHeight this).
Proof.
  intros _ this' slot. unfold this', slot. rewrite update_states.
  split; [apply lookup_insert_eq |].
  split.
  - intros j Hj. apply lookup_insert_ne. congruence.
  - apply update_bestHeight_unknown.
Qed.

Lemma unknown_ids_write_one_slot_witness :
  let st := Scenario.fresh (JObj []) in
  let st' := fst (ChainsState.update st "B" "Y" (Scenario.observation 500 "h0" Scenario.t0)) in
  ChainsState.states st' !! 0 = Some (Scenario.observation 500 "h0" Scenario.t0) /\
  ChainsState.bestHeight st' = ChainsState.bestHeight st.
Proof.
  intros st st'.
  assert (Hy : ~ knownChain st "Y").
  { unfold knownChain. vm_compute. intros H. apply H. reflexivity. }
  destruct (unknown_ids_write_one_slot st "B" "Y"
              (Scenario.observation 500 "h0" Scenario.t0) (or_intror Hy)) as (Hs & _ & Hb).
  split; [exact Hs | exact (Hb Hy)].
Defined.

(** ** The stored observation *)

(** C5 fails: the client keeps no timestamps of its own.  The same height
    and hash delivered again with a later [firstSeenTs] replace the stored
    [firstSeenTs]. *)
Lemma redelivery_can_change_firstSeenTs :
  let st1 := applyUpdate (Scenario.fresh (JObj []))
               (Scenario.report "A" "X" 100 "h1" Scenario.t0) in
  let st2 := applyUpdate st1 (Scenario.report "A" "X" 100 "h1" (Scenario.t0 + 30)) in
  let slot := ChainsState.getIdxByIds st1 "A" "X" in
  firstSeenTs <$> ChainsState.states st1 !! slot = Some Scenario.t0 /\
  firstSeenTs <$> ChainsState.states st2 !! slot = Some (Scenario.t0 + 30) /\
  changedSpec (ChainsState.states st1 !! slot)
    (Scenario.observation 100 "h1" (Scenario.t0 + 30)) = false.
Proof. cbv zeta. repeat split; vm_compute; reflexivity. Qed.

(** C5, amended. After an update of a pair the stored observation is the
    payload of the update.  So an update equal to the stored observation in
    height, hash and [firstSeenTs] changes nothing, and the stored
    [firstSeenTs] changes exactly when the update carries another one. *)
Theorem stored_observation_is_the_payload
    (this : ChainsState.t) (source chain : string) (prev chainState : ChainState) :
  let slot := ChainsState.getIdxByIds this source chain in
  ChainsState.states this !! slot = Some prev ->
  let this' := fst (ChainsState.update this source chain chainState) in
  ChainsState.states this' !! slot = Some chainState /\
  (chainState = prev -> ChainsState.states this' = ChainsState.states this) /\
  (firstSeenTs <$> ChainsState.states this' !! slot <> Some (firstSeenTs prev)
   <-> firstSeenTs chainState <> firstSeenTs prev).
Proof.
  intros slot Hprev this'. unfold this', slot in *. rewrite update_states.
  rewrite lookup_insert_eq. split; [reflexivity |]. split.
  - intros ->. now apply insert_id.
  - simpl. split; intros H E; apply H; congruence.
Qed.

Lemma stored_observation_is_the_payload_witness :
  let st1 := applyUpdate (Scenario.fresh (JObj []))
               (Scenario.report "A" "X" 100 "h1" Scenario.t0) in
  ChainsState.states
    (fst (ChainsState.update st1 "A" "X" (Scenario.observation 100 "h1" Scenario.t0)))
  = ChainsState.states st1.
Proof.
  intros st1.
  destruct (stored_observation_is_the_payload st1 "A" "X"
              (Scenario.observation 100 "h1" Scenario.t0)
              (Scenario.observation 100 "h1" Scenario.t0)) as (_ & Hsame & _).
  - vm_compute. reflexivity.
  - apply Hsame. reflexivity.
Defined.

(** ** The alert *)

Lemma update_sound (this : ChainsState.t) (source chain : string) (chainState : ChainState) :
  snd (ChainsState.update this source chain chainState) =
  if match ChainsState.states this !! ChainsState.getIdxByIds this source chain with
     | None => true
     | Some prev => string_loose_neq_number (hash prev) (height chainState)
     end
  then ChainsState.getEnableSoundFor this source chain
  else Normal false.
Proof.
  unfold ChainsState.update; simpl.
  destruct (match ChainsState.states this !! _ with None => true | Some _ => _ end);
    [| reflexivity].
  destruct (array_get _ _) as [best|]; [destruct (best <? _)%N |]; reflexivity.
Qed.

(** C2, on the code. The sound test compares the previous hash with the new
    height.  With alerts on for [(A, X)]: the same height and hash delivered
    twice play the sound twice, although nothing changed; and a new height
    with a new hash plays no sound when the previous hash reads as that
    height. *)
Theorem sound_test_compares_hash_with_height :
  let st0 := Scenario.fresh Scenario.enabledAX in
  let o := Scenario.observation 100 "h1" Scenario.t0 in
  let st1 := fst (ChainsState.update st0 "A" "X" o) in
  let p := Scenario.observation 100 "101" Scenario.t0 in
  let q := Scenario.observation 101 "h2" (Scenario.t0 + 600) in
  let st2 := fst (ChainsState.update st0 "A" "X" p) in
  ChainsState.constructor [Scenario.A; Scenario.B] [Scenario.X] (Some Scenario.prefsText)
  = Normal st0 /\
  ChainsState.getEnableSoundFor st0 "A" "X" = Normal true /\
  (ChainsState.states st1 !! ChainsState.getIdxByIds st1 "A" "X" = Some o /\
   changedSpec (Some o) o = false /\
   snd (ChainsState.update st1 "A" "X" o) = Normal true) /\
  (ChainsState.states st2 !! ChainsState.getIdxByIds st2 "A" "X" = Some p /\
   changedSpec (Some p) q = true /\
   snd (ChainsState.update st2 "A" "X" q) = Normal false).
Proof. cbv zeta. repeat split; vm_compute; reflexivity. Qed.


(** ** The classes of a cell *)


(** A loop returns when, and only when, every call in it returns. *)
Lemma sequence_Normal {A} (cs : list (completion A)) (l : list A) :
  sequence cs = Normal l <-> cs = map Normal l.
Proof.
  revert l. induction cs as [|c r IH]; intros l; simpl.
  - split.
    + intros [= <-]. reflexivity.
    + destruct l; [reflexivity | discriminate].
  - destruct c as [a | e]; simpl.
    + destruct (sequence r) as [l' | e] eqn:E; simpl.
      * split.
        -- intros [= <-]. simpl. f_equal. now apply IH.
        -- destruct l as [|a' l'']; [discriminate |]. simpl. intros [= -> Hr].
           apply IH in Hr. congruence.
      * split; [discriminate |].
        destruct l as [|a' l'']; [discriminate |]. simpl. intros [= -> Hr].
        apply IH in Hr. discriminate.
    + split; [discriminate |]. destruct l; discriminate.
Qed.

(** When [renderTable] returns, the cell it drew for chain [chainIdx] and
    source [sourceIdx] carries the classes of [cellClasses]. *)
Lemma renderTable_cell (this : ChainsState.t) (nowMs : Z) (chainIdx sourceIdx : nat)
    (chain : Chain.t) (source : Source.t) (table : list (list (list string))) :
  ChainsState.renderTable this nowMs = Normal table ->
  ChainsState.chains this !! chainIdx = Some chain ->
  ChainsState.sources this !! sourceIdx = Some source ->
  exists classes,
    ChainsState.cellClasses this nowMs chainIdx sourceIdx chain source = Normal classes /\
    table !! chainIdx ≫= (fun row => row !! sourceIdx) = Some classes.
Proof.
  unfold ChainsState.renderTable. intros Ht Hc Hs.
  apply sequence_Normal in Ht.
  assert (Hrow : imap (fun chainIdx chain =>
                         sequence
                           (imap (fun sourceIdx source =>
                                    ChainsState.cellClasses this nowMs chainIdx sourceIdx
                                      chain source)
                                 (ChainsState.sources this)))
                   (ChainsState.chains this) !! chainIdx
                 = map Normal table !! chainIdx) by now rewrite Ht.
  rewrite list_lookup_imap, Hc in Hrow. simpl in Hrow.
  change (map Normal table) with (Normal <$> table) in Hrow.
  rewrite list_lookup_fmap in Hrow.
  destruct (table !! chainIdx) as [row|]; [| discriminate]. simpl in Hrow.
  injection Hrow as Hrow. apply sequence_Normal in Hrow.
  assert (Hcell : imap (fun sourceIdx source =>
                          ChainsState.cellClasses this nowMs chainIdx sourceIdx chain source)
                    (ChainsState.sources this) !! sourceIdx
                  = map Normal row !! sourceIdx) by now rewrite Hrow.
  rewrite list_lookup_imap, Hs in Hcell. simpl in Hcell.
  change (map Normal row) with (Normal <$> row) in Hcell.
  rewrite list_lookup_fmap in Hcell.
  destruct (row !! sourceIdx) as [classes|] eqn:Er; [| discriminate]. simpl in Hcell.
  injection Hcell as Hcell. exists classes. split; [exact Hcell |].
  simpl. exact Er.
Qed.








(** ** The reconnect loop *)

Lemma reconnectDelay_bounds (n : N) (random : Q) :
  (0 <= random)%Q ->
  (0 <= App.reconnectDelay n random)%Q /\ (App.reconnectDelay n random <= 60000 # 1)%Q.
Proof.
  intros Hr. unfold App.reconnectDelay. split.
  - apply Q.min_glb; [discriminate |].
    apply Qmult_le_0_compat.
    + apply Qmult_le_0_compat; [discriminate |].
      unfold Qle; simpl. lia.
    + apply Qle_trans with random; [exact Hr |].
      rewrite <- (Qplus_0_r random) at 1.
      apply Qplus_le_compat; [apply Qle_refl | discriminate].
  - apply Q.le_min_l.
Qed.

(** C4 fails in its second half: nothing happens to the counter when the
    stream opens; it is each parsed message that sets it to zero. *)
Lemma open_keeps_reconnectCount :
  let lost := fst (App.on_close App.constructor (1 # 2)) in
  let lostAgain := fst (App.on_close (App.on_open lost) (1 # 2)) in
  App.reconnectCount lost = 1%N /\
  App.reconnectCount (App.on_open lost) = 1%N /\
  App.reconnectCount lostAgain = 2%N /\
  App.reconnectCount (fst (App.on_message None lostAgain (App.Parsed App.Other))) = 0%N.
Proof. cbv zeta. repeat split; reflexivity. Qed.

(** C4, amended. For every attempt count and every random draw in [0, 1)
    the delay lies between 0 and 60000 ms.  A close increments the counter,
    an open leaves it, every message that parses resets it to zero, and a
    message that does not parse leaves it. *)
Theorem delay_bounded_and_counter_reset_by_messages
    (app : App.t) (random : Q) (item : option string) (msg : App.frame) :
  (0 <= random)%Q -> (random < 1)%Q ->
  ((0 <= snd (App.on_close app random))%Q /\
   (snd (App.on_close app random) <= 60000 # 1)%Q) /\
  App.reconnectCount (fst (App.on_close app random)) = (App.reconnectCount app + 1)%N /\
  App.reconnectCount (App.on_open app) = App.reconnectCount app /\
  App.reconnectCount (fst (App.on_message item app (App.Parsed msg))) = 0%N /\
  App.reconnectCount (fst (App.on_message item app App.Unparsable)) = App.reconnectCount app.
Proof.
  intros Hr _. split; [apply reconnectDelay_bounds; exact Hr |].
  repeat split.
  unfold App.on_message. destruct msg as [srcs chs | s c m |]; simpl.
  - destruct (ChainsState.constructor srcs chs item); reflexivity.
  - destruct (App.chains app) as [cs|]; [| reflexivity].
    destruct (ChainsState.update cs s c m). reflexivity.
  - reflexivity.
Qed.

Lemma delay_bounded_and_counter_reset_by_messages_witness :
  let app := {| App.reconnectCount := 100; App.chains := None |} in
  (snd (App.on_close app (9 # 10)) <= 60000 # 1)%Q /\
  App.reconnectCount (fst (App.on_message None app (App.Parsed App.Other))) = 0%N.
Proof.
  intros app.
  destruct (delay_bounded_and_counter_reset_by_messages app (9 # 10) None App.Other)
    as ((_ & Hle) & _ & _ & Hmsg & _).
  - discriminate.
  - reflexivity.
  - split; [exact Hle | exact Hmsg].
Defined.

(** ** The preference store *)

(** C6 fails for a store that holds text [JSON.parse] rejects: the
    SyntaxError leaves [loadEnableSoundFor], and the constructor with it. *)
Lemma corrupt_store_makes_load_throw :
  ChainsState.loadEnableSoundFor (Some "{") = Throw SyntaxError /\
  ChainsState.constructor [Scenario.A; Scenario.B] [Scenario.X] (Some "{")
  = Throw SyntaxError.
Proof. split; vm_compute; reflexivity. Qed.

(** C6, amended. With no stored item, or the empty string, the load gives
    the empty object.  Any other stored text goes through [JSON.parse]: the
    load gives the parsed value, or throws the SyntaxError of the parse. *)
Theorem load_defaults_only_when_absent :
  ChainsState.loadEnableSoundFor None = Normal (JObj []) /\
  ChainsState.loadEnableSoundFor (Some EmptyString) = Normal (JObj []) /\
  forall text : string, text <> EmptyString ->
    (exists v, JSON.parse text = Normal v /\
               ChainsState.loadEnableSoundFor (Some text) = Normal v) \/
    (JSON.parse text = Throw SyntaxError /\
     ChainsState.loadEnableSoundFor (Some text) = Throw SyntaxError).
Proof.
  split; [vm_compute; reflexivity |]. split; [vm_compute; reflexivity |].
  intros text Hne.
  assert (E : ChainsState.loadEnableSoundFor (Some text) = JSON.parse text).
  { unfold ChainsState.loadEnableSoundFor. destruct text; [contradiction | reflexivity]. }
  rewrite E. unfold JSON.parse.
  destruct (parse_value _ _) as [[v rest]| |]; try (right; split; reflexivity).
  destruct (skip_ws rest); [left; exists v; split; reflexivity | right; split; reflexivity].
Qed.

Lemma load_defaults_only_when_absent_witness :
  ChainsState.loadEnableSoundFor (Some Scenario.prefsText) = Normal Scenario.enabledAX.
Proof.
  destruct load_defaults_only_when_absent as (_ & _ & H).
  destruct (H Scenario.prefsText) as [(v & Hv & Hl) | (Hv & _)].
  - discriminate.
  - rewrite Hl. rewrite <- Hv. vm_compute. reflexivity.
  - vm_compute in Hv. discriminate.
Defined.



(** * Further properties of the script *)

(** ** The model of JSON.stringify on small inputs *)

Example NumberToString_forms :
  map (fun x => string_of_list_ascii (NumberToString (fst x) (snd x)))
    [(25, 2); (15, -1); (5, -3); (1, 21); (1, -7); (123, -9); (0, 5); (-15, -1); (100, 0)]
  = ["2500"; "1.5"; "0.005"; "1e+21"; "1e-7"; "1.23e-7"; "0"; "-1.5"; "100"].
Proof. vm_compute. reflexivity. Qed.

Example stringify_orders_keys :
  stringify (JObj [(units "b", JNum 1 0); (units "10", JNull);
                   (units "b", JArr [JBool true; JObj []]); (units "2", JBool false);
                   (units "01", JStr (units "x"))])
  = units ("{" ++ quoted "2" ++ ":false," ++ quoted "10" ++ ":null," ++ quoted "b"
           ++ ":[true,{}]," ++ quoted "01" ++ ":" ++ quoted "x" ++ "}").
Proof. vm_compute. reflexivity. Qed.

Example stringify_escapes :
  stringify (JStr [34; 92; 10; 1; 233; 55357; 56832; 55357; 120]%N)
  = ([34; 92; 34; 92; 92; 92; 110] ++ units "\u0001" ++ [233; 55357; 56832]
     ++ units "\ud83d" ++ [120; 34])%N.
Proof. vm_compute. reflexivity. Qed.

(** ** The state matrix under runs of updates *)

Lemma update_fst (this : ChainsState.t) (source chain : string) (chainState : ChainState) :
  fst (ChainsState.update this source chain chainState) =
  {| ChainsState.sources := ChainsState.sources this;
     ChainsState.chains := ChainsState.chains this;
     ChainsState.states :=
       <[ChainsState.getIdxByIds this source chain := chainState]> (ChainsState.states this);
     ChainsState.bestHeight :=
       raiseBest (ChainsState.chains this) (ChainsState.bestHeight this) chain
         (height chainState);
     ChainsState.MAX_BACKEND_SOURCE_CHECK_PERIOD_SECS :=
       ChainsState.MAX_BACKEND_SOURCE_CHECK_PERIOD_SECS this;
     ChainsState.enableSoundFor := ChainsState.enableSoundFor this |}.
Proof.
  unfold ChainsState.update, raiseBest; simpl.
  change (ChainsState.getChainIdx (ChainsState.set_states this _) chain)
    with (findIndex (fun element => String.eqb (Chain.id element) chain)
            (ChainsState.chains this)).
  destruct (array_get _ _) as [best|]; [destruct (best <? _)%N |]; reflexivity.
Qed.

Lemma raiseBest_length (chains : list Chain.t) (best : list N) (chain : string) (h : N) :
  length (raiseBest chains best chain h) = length best.
Proof.
  unfold raiseBest. destruct (array_get _ _) as [b|]; [destruct (b <? h)%N |];
    rewrite ?length_insert; reflexivity.
Qed.

(** Entry [j] after a raise: the larger of the old entry and [h] when [j]
    is the index of the chain, the old entry otherwise. *)
Lemma raiseBest_lookup (chains : list Chain.t) (best : list N) (chain : string) (h : N)
    (j : nat) :
  raiseBest chains best chain h !! j =
  if bool_decide (Z.of_nat j = findIndex (fun element => String.eqb (Chain.id element) chain)
                                 chains)
  then N.max h <$> best !! j
  else best !! j.
Proof.
  unfold raiseBest, array_get.
  set (i := findIndex _ chains).
  case_bool_decide as E.
  - rewrite <- E. destruct (Z.ltb_spec (Z.of_nat j) 0); [lia |].
    rewrite Nat2Z.id. destruct (best !! j) as [b|] eqn:Hb; simpl; [| exact Hb].
    destruct (N.ltb_spec b h).
    + rewrite list_lookup_insert_eq by (apply lookup_lt_Some in Hb; exact Hb).
      f_equal. lia.
    + rewrite Hb. f_equal. lia.
  - destruct (Z.ltb_spec i 0); [reflexivity |].
    destruct (best !! Z.to_nat i) as [b|]; [| reflexivity].
    destruct (b <? h)%N; [| reflexivity].
    apply list_lookup_insert_ne. lia.
Qed.

Lemma raiseBest_comm (chains : list Chain.t) (best : list N)
    (c1 c2 : string) (h1 h2 : N) :
  raiseBest chains (raiseBest chains best c1 h1) c2 h2
  = raiseBest chains (raiseBest chains best c2 h2) c1 h1.
Proof.
  apply list_eq. intros j. rewrite !raiseBest_lookup.
  repeat case_bool_decide; try reflexivity.
  destruct (best !! j) as [b|]; simpl; [| reflexivity].
  f_equal. lia.
Qed.

Lemma raiseBest_idem (chains : list Chain.t) (best : list N) (c : string) (h : N) :
  raiseBest chains (raiseBest chains best c h) c h = raiseBest chains best c h.
Proof.
  apply list_eq. intros j. rewrite !raiseBest_lookup.
  case_bool_decide; [| reflexivity].
  destruct (best !! j) as [b|]; simpl; [| reflexivity].
  f_equal. lia.
Qed.

Lemma applyUpdate_unfold (this : ChainsState.t) (u : UpdateEvent) :
  applyUpdate this u =
  {| ChainsState.sources := ChainsState.sources this;
     ChainsState.chains := ChainsState.chains this;
     ChainsState.states :=
       <[ChainsState.getIdxByIds this (ev_source u) (ev_chain u) := ev_state u]>
         (ChainsState.states this);
     ChainsState.bestHeight :=
       raiseBest (ChainsState.chains this) (ChainsState.bestHeight this) (ev_chain u)
         (height (ev_state u));
     ChainsState.MAX_BACKEND_SOURCE_CHECK_PERIOD_SECS :=
       ChainsState.MAX_BACKEND_SOURCE_CHECK_PERIOD_SECS this;
     ChainsState.enableSoundFor := ChainsState.enableSoundFor this |}.
Proof. apply update_fst. Qed.

Lemma updates_keep_registry_and_shape_aux
    (sources : list Source.t) (chains : list Chain.t) (item : option string)
    (this : ChainsState.t) (us : list UpdateEvent) :
  ChainsState.constructor sources chains item = Normal this ->
  ChainsState.sources (applyUpdates this us) = sources /\
  ChainsState.chains (applyUpdates this us) = chains.
Proof.
  intros Hnew.
  assert (Hkeep : forall (st : ChainsState.t),
             ChainsState.sources (applyUpdates st us) = ChainsState.sources st /\
             ChainsState.chains (applyUpdates st us) = ChainsState.chains st).
  { unfold applyUpdates. induction us as [|u r IH]; intros st; simpl; [auto |].
    destruct (IH (applyUpdate st u)) as (-> & ->).
    rewrite applyUpdate_unfold; simpl. auto. }
  destruct (Hkeep this) as (-> & ->).
  unfold ChainsState.constructor, bind in Hnew.
  destruct (ChainsState.loadEnableSoundFor item); [| discriminate].
  injection Hnew as <-. auto.
Qed.

(** X1. Updates never touch the registry, the preferences or the constant,
    and [bestHeight] keeps one entry per chain: after an init and any run
    of updates every row of the table has a best height. *)
Theorem updates_keep_registry_and_shape
    (sources : list Source.t) (chains : list Chain.t) (item : option string)
    (this0 : ChainsState.t) (us : list UpdateEvent) :
  ChainsState.constructor sources chains item = Normal this0 ->
  let this := applyUpdates this0 us in
  ChainsState.sources this = sources /\
  ChainsState.chains this = chains /\
  ChainsState.enableSoundFor this = ChainsState.enableSoundFor this0 /\
  ChainsState.MAX_BACKEND_SOURCE_CHECK_PERIOD_SECS this = 60 /\
  length (ChainsState.bestHeight this) = length chains /\
  forall chainIdx, (chainIdx < length chains)%nat ->
    is_Some (ChainsState.bestHeight this !! chainIdx).
Proof.
  intros Hnew this.
  assert (Hkeep : forall (st : ChainsState.t),
             ChainsState.sources (applyUpdates st us) = ChainsState.sources st /\
             ChainsState.chains (applyUpdates st us) = ChainsState.chains st /\
             ChainsState.enableSoundFor (applyUpdates st us) = ChainsState.enableSoundFor st /\
             ChainsState.MAX_BACKEND_SOURCE_CHECK_PERIOD_SECS (applyUpdates st us)
             = ChainsState.MAX_BACKEND_SOURCE_CHECK_PERIOD_SECS st /\
             length (ChainsState.bestHeight (applyUpdates st us))
             = length (ChainsState.bestHeight st)).
  { unfold applyUpdates. induction us as [|u r IH]; intros st; simpl; [auto |].
    destruct (IH (applyUpdate st u)) as (-> & -> & -> & -> & ->).
    rewrite applyUpdate_unfold; simpl. rewrite raiseBest_length. auto. }
  destruct (Hkeep this0) as (Hs & Hc & He & Hm & Hl).
  unfold ChainsState.constructor, bind in Hnew.
  destruct (ChainsState.loadEnableSoundFor item); [| discriminate].
  injection Hnew as <-. simpl in *.
  rewrite length_replicate in Hl.
  repeat split; try assumption.
  intros chainIdx Hlt. apply lookup_lt_is_Some_2. unfold this. rewrite Hl. exact Hlt.
Qed.

Lemma updates_keep_registry_and_shape_witness :
  length (ChainsState.bestHeight (applyUpdates (Scenario.fresh (JObj [])) Scenario.session))
  = 1%nat.
Proof.
  destruct (updates_keep_registry_and_shape [Scenario.A; Scenario.B] [Scenario.X] None
              (Scenario.fresh (JObj [])) Scenario.session eq_refl)
    as (_ & _ & _ & _ & H & _).
  exact H.
Defined.

(** X2. When every update since the init named a chain of the registry, no
    cell is ahead of its row: an observation in a slot of chain index
    [chainIdx] is not higher than [bestHeight[chainIdx]], so the [diff]
    that [renderTable] prints is never positive. *)
Theorem no_cell_ahead_of_best
    (sources : list Source.t) (chains : list Chain.t) (item : option string)
    (this0 : ChainsState.t) (us : list UpdateEvent)
    (sourceIdx chainIdx : nat) (o : ChainState) :
  ChainsState.constructor sources chains item = Normal this0 ->
  Forall (fun u => knownChain this0 (ev_chain u)) us ->
  let this := applyUpdates this0 us in
  (chainIdx < length chains)%nat ->
  ChainsState.states this !! ChainsState.getIdx this (Z.of_nat sourceIdx) (Z.of_nat chainIdx)
  = Some o ->
  exists best,
    ChainsState.bestHeight this !! chainIdx = Some best /\
    Z.of_N (height o) - Z.of_N best <= 0.
Proof.
  intros Hnew Hall this Hlt Ho.
  assert (Hinv : heightsBelowBest this).
  { apply heightsBelowBest_applyUpdates; [exact Hall |].
    eapply heightsBelowBest_constructor; exact Hnew. }
  destruct Hinv as [_ Hinv].
  destruct (constructor_bestHeight _ _ _ _ Hnew) as (Hc & _ & _).
  destruct (Hinv (Z.of_nat sourceIdx) (Z.of_nat chainIdx) o) as (best & Hb & Hle).
  - unfold this. rewrite applyUpdates_chains, Hc. lia.
  - exact Ho.
  - exists best. rewrite Nat2Z.id in Hb. split; [exact Hb | lia].
Qed.

Lemma no_cell_ahead_of_best_witness :
  let this := applyUpdates (Scenario.fresh (JObj [])) Scenario.session in
  exists best,
    ChainsState.bestHeight this !! 0%nat = Some best /\
    Z.of_N (height (Scenario.observation 80 "h3" (Scenario.t0 + 2))) - Z.of_N best <= 0.
Proof.
  apply (no_cell_ahead_of_best [Scenario.A; Scenario.B] [Scenario.X] None
           (Scenario.fresh (JObj [])) Scenario.session 1 0).
  - reflexivity.
  - repeat constructor; unfold knownChain; vm_compute; discriminate.
  - simpl. lia.
  - vm_compute. reflexivity.
Defined.

(** X3. Delivering an update a second time changes nothing in the state:
    the observations and the best heights are those after the first
    delivery. *)
Theorem redelivery_leaves_state (this : ChainsState.t) (u : UpdateEvent) :
  applyUpdate (applyUpdate this u) u = applyUpdate this u.
Proof.
  rewrite (applyUpdate_unfold (applyUpdate this u)).
  rewrite (applyUpdate_unfold this u). simpl.
  unfold ChainsState.getIdxByIds, ChainsState.getIdx. simpl.
  rewrite insert_insert_eq, raiseBest_idem. reflexivity.
Qed.

Lemma applyUpdates_bestHeight_fold (us : list UpdateEvent) (this : ChainsState.t) :
  ChainsState.bestHeight (applyUpdates this us) =
  fold_left (fun best u => raiseBest (ChainsState.chains this) best (ev_chain u)
                             (height (ev_state u)))
    us (ChainsState.bestHeight this).
Proof.
  unfold applyUpdates. revert this.
  induction us as [|u r IH]; intros this; simpl; [reflexivity |].
  rewrite IH. rewrite applyUpdate_unfold. reflexivity.
Qed.

Lemma fold_raiseBest_perm (chains : list Chain.t) (us us' : list UpdateEvent) :
  Permutation us us' ->
  forall best,
    fold_left (fun b u => raiseBest chains b (ev_chain u) (height (ev_state u))) us best
    = fold_left (fun b u => raiseBest chains b (ev_chain u) (height (ev_state u))) us' best.
Proof.
  induction 1 as [| x l l' _ IH | x y l | l l' l'' _ IH1 _ IH2]; intros best; simpl.
  - reflexivity.
  - apply IH.
  - now rewrite raiseBest_comm.
  - now rewrite IH1.
Qed.

(** X4. The best heights do not depend on the order in which the updates
    of a run arrive. *)
Theorem bestHeight_ignores_order (this : ChainsState.t) (us us' : list UpdateEvent) :
  Permutation us us' ->
  ChainsState.bestHeight (applyUpdates this us)
  = ChainsState.bestHeight (applyUpdates this us').
Proof.
  intros Hp. rewrite !applyUpdates_bestHeight_fold. now apply fold_raiseBest_perm.
Qed.

Lemma bestHeight_ignores_order_witness :
  ChainsState.bestHeight (applyUpdates (Scenario.fresh (JObj [])) (rev Scenario.session))
  = ChainsState.bestHeight (applyUpdates (Scenario.fresh (JObj [])) Scenario.session).
Proof.
  apply bestHeight_ignores_order. symmetry. apply Permutation_rev.
Defined.

(** ** Sound and classes *)

(** X5. The sound is played only for a pair whose alerts are enabled; and
    for a pair with no observation yet, the sound test is the preference
    lookup itself. *)
Theorem sound_only_for_enabled_pairs
    (this : ChainsState.t) (source chain : string) (chainState : ChainState) :
  (snd (ChainsState.update this source chain chainState) = Normal true ->
   ChainsState.getEnableSoundFor this source chain = Normal true) /\
  (ChainsState.states this !! ChainsState.getIdxByIds this source chain = None ->
   snd (ChainsState.update this source chain chainState)
   = ChainsState.getEnableSoundFor this source chain).
Proof.
  rewrite update_sound. split.
  - destruct (match ChainsState.states this !! _ with None => true | Some _ => _ end);
      [auto | discriminate].
  - intros ->. reflexivity.
Qed.

Lemma sound_only_for_enabled_pairs_witness :
  snd (ChainsState.update (Scenario.fresh Scenario.enabledAX) "B" "X"
         (Scenario.observation 99 "h2" Scenario.t0)) = Normal false.
Proof.
  destruct (sound_only_for_enabled_pairs (Scenario.fresh Scenario.enabledAX) "B" "X"
              (Scenario.observation 99 "h2" Scenario.t0)) as [_ H].
  rewrite H; reflexivity.
Defined.



Lemma imap_const {A B} (f : nat -> A -> B) (b : B) (l : list A) :
  (forall i x, f i x = b) -> imap f l = replicate (length l) b.
Proof.
  revert f. induction l as [|x l IH]; intros f Hf; simpl; [reflexivity |].
  rewrite Hf. f_equal. apply IH. intros i y. apply Hf.
Qed.

Lemma map_replicate {A B} (f : A -> B) (n : nat) (x : A) :
  map f (replicate n x) = replicate n (f x).
Proof. induction n as [|n IH]; simpl; [reflexivity | now rewrite IH]. Qed.

Lemma sequence_returns {A} (cs : list (completion A)) :
  Forall (fun c => exists a, c = Normal a) cs -> exists l, sequence cs = Normal l.
Proof.
  induction 1 as [|c r [a ->] _ [l IH]]; simpl.
  - now exists [].
  - rewrite IH. simpl. now exists (a :: l).
Qed.

Lemma sequence_length {A} (cs : list (completion A)) (l : list A) :
  sequence cs = Normal l -> length l = length cs.
Proof. intros H. apply sequence_Normal in H. subst cs. now rewrite length_map. Qed.

(** A cell is drawn to the end when the store is not [null] and every
    stored [firstSeenTs] is a date. *)
Lemma cellClasses_returns (this : ChainsState.t) (nowMs : Z) (chainIdx sourceIdx : nat)
    (chain : Chain.t) (source : Source.t) :
  ChainsState.enableSoundFor this <> JNull ->
  map_Forall (fun _ o => validTimeValue (1000 * firstSeenTs o) = true)
    (ChainsState.states this) ->
  exists classes,
    ChainsState.cellClasses this nowMs chainIdx sourceIdx chain source = Normal classes.
Proof.
  intros Hp Hv. unfold ChainsState.cellClasses.
  destruct (ChainsState.states this !! _) as [o|] eqn:E; [| eauto].
  apply Hv in E. simpl in E. unfold ChainsState.getEnableSoundFor.
  destruct (ChainsState.enableSoundFor this); try congruence; simpl; rewrite E; eauto.
Qed.

Lemma applyUpdates_enableSoundFor (us : list UpdateEvent) (this : ChainsState.t) :
  ChainsState.enableSoundFor (applyUpdates this us) = ChainsState.enableSoundFor this.
Proof.
  unfold applyUpdates. revert this.
  induction us as [|u us IH]; intros this; simpl; [reflexivity |].
  rewrite IH. apply update_enableSoundFor.
Qed.

Lemma applyUpdates_dates (us : list UpdateEvent) (this : ChainsState.t) :
  map_Forall (fun _ o => validTimeValue (1000 * firstSeenTs o) = true)
    (ChainsState.states this) ->
  Forall (fun u => validTimeValue (1000 * firstSeenTs (ev_state u)) = true) us ->
  map_Forall (fun _ o => validTimeValue (1000 * firstSeenTs o) = true)
    (ChainsState.states (applyUpdates this us)).
Proof.
  unfold applyUpdates. revert this.
  induction us as [|u us IH]; intros this Hv Hus; simpl; [exact Hv |].
  inversion Hus as [|u' us' Hu Hus']; subst.
  apply IH; [| exact Hus'].
  unfold applyUpdate. rewrite update_states.
  apply map_Forall_insert_2; assumption.
Qed.

(** X7. Right after an init [renderTable] returns a table with a row per
    chain and a cell per source, every cell missing-state.  After updates
    a drawing can throw; a table that is returned has a row per chain and a
    cell per source, and one is returned whenever the preference store is
    not [null] and every [firstSeenTs] received is a date. *)
Theorem fresh_table_is_all_missing
    (sources : list Source.t) (chains : list Chain.t) (item : option string)
    (this : ChainsState.t) (us : list UpdateEvent) (nowMs : Z) :
  ChainsState.constructor sources chains item = Normal this ->
  ChainsState.renderTable this nowMs
  = Normal (replicate (length chains) (replicate (length sources) ["missing-state"])) /\
  (forall table,
     ChainsState.renderTable (applyUpdates this us) nowMs = Normal table ->
     length table = length chains /\
     Forall (fun row => length row = length sources) table) /\
  (ChainsState.enableSoundFor this <> JNull ->
   Forall (fun u => validTimeValue (1000 * firstSeenTs (ev_state u)) = true) us ->
   exists table, ChainsState.renderTable (applyUpdates this us) nowMs = Normal table).
Proof.
  intros Hnew.
  destruct (updates_keep_registry_and_shape_aux sources chains item this us Hnew)
    as (Hs & Hc).
  unfold ChainsState.constructor, bind in Hnew.
  destruct (ChainsState.loadEnableSoundFor item); [| discriminate].
  injection Hnew as <-.
  split; [| split].
  - unfold ChainsState.renderTable; simpl.
    apply sequence_Normal. rewrite map_replicate.
    apply imap_const. intros i x.
    apply sequence_Normal. rewrite map_replicate.
    apply imap_const. intros k y.
    unfold ChainsState.cellClasses; simpl. rewrite lookup_empty. reflexivity.
  - intros table Ht. unfold ChainsState.renderTable in Ht. split.
    + apply sequence_length in Ht. rewrite Ht, length_imap, Hc. reflexivity.
    + apply sequence_Normal in Ht. apply Forall_lookup. intros i row Hi.
      assert (Hrow : (Normal <$> table) !! i = Some (Normal row))
        by now rewrite list_lookup_fmap, Hi.
      change (Normal <$> table) with (map Normal table) in Hrow.
      rewrite <- Ht, list_lookup_imap in Hrow.
      destruct (ChainsState.chains _ !! i); [| discriminate].
      injection Hrow as Hrow. apply sequence_length in Hrow.
      rewrite Hrow, length_imap, Hs. reflexivity.
  - intros Hp Hus. unfold ChainsState.renderTable.
    apply sequence_returns. apply Forall_lookup. intros i c Hi.
    rewrite list_lookup_imap in Hi.
    destruct (ChainsState.chains _ !! i) as [chain|]; [| discriminate].
    injection Hi as <-.
    apply sequence_returns. apply Forall_lookup. intros k c Hk.
    rewrite list_lookup_imap in Hk.
    destruct (ChainsState.sources _ !! k) as [source|]; [| discriminate].
    injection Hk as <-.
    apply cellClasses_returns.
    + rewrite applyUpdates_enableSoundFor. exact Hp.
    + apply applyUpdates_dates; [| exact Hus]. simpl. apply map_Forall_empty.
Qed.

Lemma fresh_table_is_all_missing_witness :
  ChainsState.renderTable (Scenario.fresh (JObj [])) 0
  = Normal [[["missing-state"]; ["missing-state"]]] /\
  exists table,
    ChainsState.renderTable (applyUpdates (Scenario.fresh (JObj [])) Scenario.session) 0
    = Normal table.
Proof.
  destruct (fresh_table_is_all_missing [Scenario.A; Scenario.B] [Scenario.X] None
              (Scenario.fresh (JObj [])) Scenario.session 0 eq_refl) as (H & _ & Hr).
  split; [exact H |].
  apply Hr; [discriminate |].
  repeat constructor.
Defined.

(** ** Ids that occur twice, and keys that collide *)

Lemma findIndex_from_first {A} (p : A -> bool) (l : list A) (k : Z) (j : nat) (x : A) :
  0 <= k -> 0 <= findIndex_from p l k ->
  (j < Z.to_nat (findIndex_from p l k - k))%nat -> l !! j = Some x -> p x = false.
Proof.
  revert k j. induction l as [|y r IH]; intros k j Hk Hi Hj Hx; simpl in *.
  - discriminate.
  - destruct (p y) eqn:Hp.
    + replace (k - k) with 0 in Hj by lia. simpl in Hj. lia.
    + destruct j as [|j]; simpl in Hx.
      * now injection Hx as <-.
      * destruct (findIndex_from_range p r (k + 1)) as [E | E]; [lia |].
        apply (IH (k + 1) j); [lia | assumption | lia | assumption].
Qed.

Lemma findIndex_first {A} (p : A -> bool) (l : list A) (j : nat) (x : A) :
  0 <= findIndex p l -> (j < Z.to_nat (findIndex p l))%nat -> l !! j = Some x ->
  p x = false.
Proof.
  unfold findIndex. intros Hi Hj Hx.
  apply (findIndex_from_first p l 0 j x); [lia | assumption | | assumption].
  now rewrite Z.sub_0_r.
Qed.

(** X8. A chain id listed a second time is dead: lookups stop at the first
    entry, so the best height of the later entry stays at zero whatever
    updates arrive. *)
Theorem repeated_chain_never_rises
    (sources : list Source.t) (chains : list Chain.t) (item : option string)
    (this0 : ChainsState.t) (us : list UpdateEvent)
    (first later : nat) (c c' : Chain.t) :
  ChainsState.constructor sources chains item = Normal this0 ->
  (first < later)%nat ->
  chains !! first = Some c -> chains !! later = Some c' -> Chain.id c = Chain.id c' ->
  ChainsState.bestHeight (applyUpdates this0 us) !! later = Some 0%N.
Proof.
  intros Hnew Hlt Hc Hc' Hid.
  destruct (constructor_bestHeight _ _ _ _ Hnew) as (Hch & _ & Hbest).
  assert (H0 : ChainsState.bestHeight this0 !! later = Some 0%N).
  { rewrite Hbest. apply lookup_replicate_2. apply lookup_lt_Some in Hc'. exact Hc'. }
  assert (Hmiss : forall st chain, ChainsState.chains st = chains ->
             ChainsState.getChainIdx st chain < 0 \/
             later <> Z.to_nat (ChainsState.getChainIdx st chain)).
  { intros st chain Hst. unfold ChainsState.getChainIdx. rewrite Hst.
    set (p := fun element => String.eqb (Chain.id element) chain).
    destruct (Z.ltb_spec (findIndex p chains) 0) as [Hn | Hp]; [now left | right].
    intros E.
    destruct (findIndex_found p chains Hp) as (x & Hx & Hpx).
    rewrite <- E, Hc' in Hx. injection Hx as <-.
    assert (Hf : p c = false).
    { apply (findIndex_first p chains first c Hp); [lia | exact Hc]. }
    unfold p in Hpx, Hf. rewrite Hid in Hf. congruence. }
  clear Hnew Hbest. revert this0 Hch H0. unfold applyUpdates.
  induction us as [|u r IH]; intros st Hch H0; simpl; [exact H0 |].
  apply IH.
  - unfold applyUpdate. rewrite update_chains. exact Hch.
  - unfold applyUpdate. rewrite update_bestHeight_other; [exact H0 |].
    apply Hmiss. exact Hch.
Qed.

Lemma repeated_chain_never_rises_witness :
  ChainsState.bestHeight
    (applyUpdates
       {| ChainsState.sources := [Scenario.A];
          ChainsState.chains := [Scenario.X; Scenario.X];
          ChainsState.states := ∅;
          ChainsState.bestHeight := [0%N; 0%N];
          ChainsState.MAX_BACKEND_SOURCE_CHECK_PERIOD_SECS := 60;
          ChainsState.enableSoundFor := JObj [] |}
       Scenario.session) !! 1%nat = Some 0%N.
Proof.
  apply (repeated_chain_never_rises [Scenario.A] [Scenario.X; Scenario.X] None _
           Scenario.session 0 1 Scenario.X Scenario.X).
  - reflexivity.
  - lia.
  - reflexivity.
  - reflexivity.
  - reflexivity.
Defined.

Lemma pair_key_inj (s s' c c' : string) :
  hashFree s -> hashFree s' ->
  ChainsState.enableSoundForIdx s c = ChainsState.enableSoundForIdx s' c' ->
  s = s' /\ c = c'.
Proof.
  unfold ChainsState.enableSoundForIdx, hashFree.
  revert s'. induction s as [|a s IH]; intros [|a' s'] Hs Hs' E; cbn in *.
  - inversion E. auto.
  - inversion E; subst. exfalso. apply Hs'. now left.
  - inversion E; subst. exfalso. apply Hs. now left.
  - inversion E; subst.
    destruct (IH s') as [-> ->]; auto.
Qed.

(** ** The alert preferences *)

Section Preferences.

Lemma units_eqb_eq (a b : code_units) : units_eqb a b = true <-> a = b.
Proof. unfold units_eqb. apply bool_decide_eq_true. Qed.

Lemma get_own_snoc (members : list (code_units * json)) (k k' : code_units) (v : json) :
  get_own (members ++ [(k, v)]) k' = if units_eqb k' k then Some v else get_own members k'.
Proof.
  induction members as [|[k0 v0] r IH]; simpl.
  - destruct (units_eqb k' k); reflexivity.
  - rewrite IH. destruct (units_eqb k' k); reflexivity.
Qed.

Lemma get_own_delete (members : list (code_units * json)) (k k' : code_units) :
  get_own (ChainsState.delete_property k members) k'
  = if units_eqb k k' then None else get_own members k'.
Proof.
  unfold ChainsState.delete_property.
  induction members as [|[k0 v0] r IH]; simpl.
  - destruct (units_eqb k k'); reflexivity.
  - destruct (units_eqb k k0) eqn:E0; simpl.
    + rewrite IH. apply units_eqb_eq in E0. subst k0.
      destruct (units_eqb k k') eqn:E; [reflexivity |].
      destruct (get_own r k'); [reflexivity |].
      destruct (units_eqb k' k) eqn:E'; [| reflexivity].
      apply units_eqb_eq in E'. subst. unfold units_eqb in E.
      rewrite bool_decide_eq_false in E. congruence.
    + rewrite IH. destruct (units_eqb k k') eqn:E; [| reflexivity].
      apply units_eqb_eq in E. subst k'.
      destruct (units_eqb k k0) eqn:E1; [discriminate | reflexivity].
Qed.

Lemma get_own_None (members : list (code_units * json)) (k : code_units) :
  get_own members k = None <-> ~ In k (map fst members).
Proof.
  induction members as [|[k0 v0] r IH]; simpl; [tauto |].
  destruct (get_own r k) eqn:E.
  - split; [discriminate |]. intros H. exfalso.
    assert (Hn : ~ In k (map fst r)) by tauto.
    apply IH in Hn. discriminate.
  - destruct (units_eqb k k0) eqn:E0.
    + apply units_eqb_eq in E0. subst. split; [discriminate | tauto].
    + unfold units_eqb in E0. rewrite bool_decide_eq_false in E0.
      split; [| reflexivity]. intros _ [H | H]; [congruence | tauto].
Qed.

Lemma get_own_In (members : list (code_units * json)) (k : code_units) (v : json) :
  get_own members k = Some v -> In (k, v) members.
Proof.
  induction members as [|[k0 v0] r IH]; simpl; [discriminate |].
  destruct (get_own r k) eqn:E.
  - intros [= <-]. right. now apply IH.
  - destruct (units_eqb k k0) eqn:E0; [| discriminate].
    apply units_eqb_eq in E0. subst. intros [= <-]. now left.
Qed.

Lemma map_N_of_ascii_inj (l l' : list ascii) :
  map N_of_ascii l = map N_of_ascii l' -> l = l'.
Proof.
  revert l'. induction l as [|c l IH]; intros [|c' l']; simpl; try discriminate.
  - reflexivity.
  - intros [= Hc Hl]. f_equal; [| now apply IH].
    rewrite <- (ascii_N_embedding c), <- (ascii_N_embedding c'). now rewrite Hc.
Qed.

Lemma units_inj (a b : string) : units a = units b -> a = b.
Proof.
  unfold units. intros E. apply map_N_of_ascii_inj in E.
  rewrite <- (string_of_list_ascii_of_string a), <- (string_of_list_ascii_of_string b).
  now rewrite E.
Qed.

(** What one toggle does when the store is an object. *)
Lemma toggle_object (this : ChainsState.t) (members : list (code_units * json))
    (source chain : string) :
  ChainsState.enableSoundFor this = JObj members ->
  exists (enabled : bool) (members' : list (code_units * json)),
    ChainsState.getEnableSoundFor this source chain = Normal enabled /\
    ChainsState.toggleEnableSoundFor this source chain
    = Some (Normal (ChainsState.set_enableSoundFor this (JObj members'))) /\
    members' =
      (if enabled
       then ChainsState.delete_property
              (units (ChainsState.enableSoundForIdx source chain)) members
       else ChainsState.set_property
              (units (ChainsState.enableSoundForIdx source chain)) (JBool true) members) /\
    forall source' chain',
      ChainsState.getEnableSoundFor (ChainsState.set_enableSoundFor this (JObj members'))
        source' chain'
      = if bool_decide (ChainsState.enableSoundForIdx source' chain'
                        = ChainsState.enableSoundForIdx source chain)
        then Normal (negb enabled)
        else ChainsState.getEnableSoundFor this source' chain'.
Proof.
  intros Hobj. unfold ChainsState.toggleEnableSoundFor, ChainsState.getEnableSoundFor.
  rewrite Hobj. simpl.
  set (k := units (ChainsState.enableSoundForIdx source chain)).
  set (enabled := match get_own members k with Some v => truthy v | None => false end).
  exists enabled.
  exists (if enabled then ChainsState.delete_property k members
          else ChainsState.set_property k (JBool true) members).
  split; [reflexivity |]. split; [destruct enabled; reflexivity |].
  split; [reflexivity |].
  intros source' chain'.
  set (k' := units (ChainsState.enableSoundForIdx source' chain')).
  assert (Hk : ChainsState.enableSoundForIdx source' chain'
               = ChainsState.enableSoundForIdx source chain <-> k' = k).
  { unfold k', k. split; [now intros -> | apply units_inj]. }
  case_bool_decide as E.
  - apply Hk in E. rewrite E. f_equal. destruct enabled eqn:He.
    + rewrite get_own_delete. unfold units_eqb. rewrite bool_decide_eq_true_2; reflexivity.
    + unfold ChainsState.set_property. rewrite get_own_snoc.
      unfold units_eqb. rewrite bool_decide_eq_true_2; reflexivity.
  - assert (Hne : k' <> k) by (intros E'; apply E, Hk, E').
    f_equal. destruct enabled.
    + rewrite get_own_delete. unfold units_eqb.
      rewrite bool_decide_eq_false_2 by congruence. reflexivity.
    + unfold ChainsState.set_property. rewrite get_own_snoc. unfold units_eqb.
      rewrite bool_decide_eq_false_2 by exact Hne. reflexivity.
Qed.

End Preferences.

(** X9. On a store that is an object, a toggle succeeds, inverts the
    setting of its pair, leaves every pair with another key as it was, and
    touches nothing but the preferences.  Ids without ['#'] give distinct
    pairs distinct keys, so for such ids every other pair is left alone. *)
Theorem toggle_inverts_one_pair
    (this : ChainsState.t) (members : list (code_units * json)) (source chain : string) :
  ChainsState.enableSoundFor this = JObj members ->
  exists (enabled : bool) (this' : ChainsState.t),
    ChainsState.getEnableSoundFor this source chain = Normal enabled /\
    ChainsState.toggleEnableSoundFor this source chain = Some (Normal this') /\
    ChainsState.getEnableSoundFor this' source chain = Normal (negb enabled) /\
    (forall source' chain',
       ChainsState.enableSoundForIdx source' chain'
       <> ChainsState.enableSoundForIdx source chain ->
       ChainsState.getEnableSoundFor this' source' chain'
       = ChainsState.getEnableSoundFor this source' chain') /\
    (forall source' chain',
       hashFree source -> hashFree source' -> (source', chain') <> (source, chain) ->
       ChainsState.getEnableSoundFor this' source' chain'
       = ChainsState.getEnableSoundFor this source' chain') /\
    ChainsState.states this' = ChainsState.states this /\
    ChainsState.bestHeight this' = ChainsState.bestHeight this /\
    ChainsState.sources this' = ChainsState.sources this /\
    ChainsState.chains this' = ChainsState.chains this.
Proof.
  intros Hobj.
  destruct (toggle_object this members source chain Hobj)
    as (enabled & members' & Hget & Htog & _ & Hafter).
  exists enabled, (ChainsState.set_enableSoundFor this (JObj members')).
  split; [exact Hget |]. split; [exact Htog |].
  assert (Hother : forall source' chain',
             ChainsState.enableSoundForIdx source' chain'
             <> ChainsState.enableSoundForIdx source chain ->
             ChainsState.getEnableSoundFor
               (ChainsState.set_enableSoundFor this (JObj members')) source' chain'
             = ChainsState.getEnableSoundFor this source' chain').
  { intros s' c' Hne. rewrite Hafter. now rewrite bool_decide_eq_false_2. }
  split; [rewrite Hafter; now rewrite bool_decide_eq_true_2 |].
  split; [exact Hother |].
  split; [| repeat split].
  intros s' c' Hs Hs' Hne. apply Hother. intros E.
  apply pair_key_inj in E; [| assumption | assumption].
  destruct E as [-> ->]. now apply Hne.
Qed.

Lemma toggle_inverts_one_pair_witness :
  exists this',
    ChainsState.toggleEnableSoundFor (Scenario.fresh Scenario.enabledAX) "A" "X"
    = Some (Normal this') /\
    ChainsState.getEnableSoundFor this' "A" "X" = Normal false.
Proof.
  destruct (toggle_inverts_one_pair (Scenario.fresh Scenario.enabledAX) _ "A" "X" eq_refl)
    as (enabled & this' & Hget & Htog & Hflip & _).
  exists this'. split; [exact Htog |].
  rewrite Hflip. vm_compute in Hget. injection Hget as <-. reflexivity.
Defined.

(** X10. Two toggles of the same pair cancel: every pair reads as before. *)
Theorem toggle_twice_restores
    (this : ChainsState.t) (members : list (code_units * json)) (source chain : string) :
  ChainsState.enableSoundFor this = JObj members ->
  exists this' this'',
    ChainsState.toggleEnableSoundFor this source chain = Some (Normal this') /\
    ChainsState.toggleEnableSoundFor this' source chain = Some (Normal this'') /\
    forall source' chain',
      ChainsState.getEnableSoundFor this'' source' chain'
      = ChainsState.getEnableSoundFor this source' chain'.
Proof.
  intros Hobj.
  destruct (toggle_object this members source chain Hobj)
    as (enabled & members' & Hget & Htog & _ & Hafter).
  set (this' := ChainsState.set_enableSoundFor this (JObj members')) in *.
  destruct (toggle_object this' members' source chain eq_refl)
    as (enabled' & members'' & Hget' & Htog' & _ & Hafter').
  exists this', (ChainsState.set_enableSoundFor this' (JObj members'')).
  split; [exact Htog |]. split; [exact Htog' |].
  intros s' c'. rewrite Hafter'.
  case_bool_decide as E.
  - rewrite Hafter in Hget'. rewrite bool_decide_eq_true_2 in Hget' by reflexivity.
    injection Hget' as <-. rewrite negb_involutive.
    unfold ChainsState.getEnableSoundFor in *. rewrite E. exact (eq_sym Hget).
  - rewrite Hafter. now rewrite bool_decide_eq_false_2.
Qed.

Lemma toggle_twice_restores_witness :
  exists this' this'',
    ChainsState.toggleEnableSoundFor (Scenario.fresh (JObj [])) "A" "X" = Some (Normal this') /\
    ChainsState.toggleEnableSoundFor this' "A" "X" = Some (Normal this'') /\
    ChainsState.getEnableSoundFor this'' "A" "X" = Normal false.
Proof.
  destruct (toggle_twice_restores (Scenario.fresh (JObj [])) [] "A" "X" eq_refl)
    as (this' & this'' & H1 & H2 & H3).
  exists this', this''. split; [exact H1 |]. split; [exact H2 |].
  rewrite H3. reflexivity.
Defined.

(** X11. Keys are built by joining the ids around ["###"]: pairs of ids
    without ['#'] never share a key, and ids that hold the delimiter can,
    so that one toggle flips two pairs. *)
Theorem pair_keys_are_distinct_without_hash :
  (forall s c s' c',
     hashFree s -> hashFree s' ->
     ChainsState.enableSoundForIdx s c = ChainsState.enableSoundForIdx s' c' ->
     s = s' /\ c = c') /\
  ChainsState.enableSoundForIdx "a###b" "c" = ChainsState.enableSoundForIdx "a" "b###c" /\
  (forall this members,
     ChainsState.enableSoundFor this = JObj members ->
     ChainsState.getEnableSoundFor this "a" "b###c"
     = ChainsState.getEnableSoundFor this "a###b" "c").
Proof.
  split; [intros s c s' c'; apply pair_key_inj |].
  split; [reflexivity |].
  intros this members Hobj. unfold ChainsState.getEnableSoundFor. rewrite Hobj. reflexivity.
Qed.

Lemma pair_keys_are_distinct_without_hash_witness :
  "A" = "A" /\ "X" = "X".
Proof.
  destruct pair_keys_are_distinct_without_hash as [H _].
  apply (H "A" "X" "A" "X"); [| | reflexivity];
    unfold hashFree; simpl; intros [E | []]; discriminate.
Defined.

(** X12. A store that holds [null], a number, a string or a boolean cannot
    be repaired from the page: no pair reads as enabled and every toggle
    throws a TypeError. *)
Theorem primitive_store_refuses_toggles
    (this : ChainsState.t) (source chain : string) :
  match ChainsState.enableSoundFor this with
  | JObj _ | JArr _ => False
  | _ => True
  end ->
  ChainsState.getEnableSoundFor this source chain <> Normal true /\
  ChainsState.toggleEnableSoundFor this source chain = Some (Throw TypeError).
Proof.
  unfold ChainsState.toggleEnableSoundFor, ChainsState.getEnableSoundFor.
  destruct (ChainsState.enableSoundFor this); intros H; try contradiction;
    split; try discriminate; reflexivity.
Qed.

Lemma primitive_store_refuses_toggles_witness :
  exists this,
    ChainsState.constructor [Scenario.A; Scenario.B] [Scenario.X] (Some "3") = Normal this /\
    ChainsState.toggleEnableSoundFor this "A" "X" = Some (Throw TypeError).
Proof.
  exists (Scenario.fresh (JNum 3 0)). split; [vm_compute; reflexivity |].
  apply (primitive_store_refuses_toggles (Scenario.fresh (JNum 3 0)) "A" "X"). exact I.
Defined.

(** ** Saving the preferences and reading them back *)

Section StoreRoundTrip.

Lemma list_ascii_of_string_app (a b : string) :
  list_ascii_of_string (a ++ b) = list_ascii_of_string a ++ list_ascii_of_string b.
Proof. induction a as [|c a IH]; simpl; [reflexivity | now rewrite IH]. Qed.

Lemma array_index_hash (k : code_units) : In 35%N k -> array_index k = None.
Proof.
  intros Hin. unfold array_index. destruct k as [|d r]; [reflexivity |].
  assert (E : forallb (fun u => (48 <=? u)%N && (u <=? 57)%N) (d :: r) = false).
  { apply not_true_is_false. intros H.
    apply (proj1 (forallb_forall _ _) H) in Hin. discriminate. }
  rewrite E. reflexivity.
Qed.

Lemma pair_key_not_index (source chain : string) :
  array_index (units (ChainsState.enableSoundForIdx source chain)) = None.
Proof.
  apply array_index_hash. unfold units, ChainsState.enableSoundForIdx.
  rewrite list_ascii_of_string_app, map_app. apply in_or_app. right. now left.
Qed.

Lemma put_fresh {V} (k : code_units) (v : V) (ps : list (code_units * V)) :
  ~ In k (map fst ps) -> put k v ps = ps ++ [(k, v)].
Proof.
  induction ps as [|[k0 v0] r IH]; simpl; [reflexivity |].
  intros Hn. destruct (units_eqb k k0) eqn:E.
  - apply units_eqb_eq in E. subst. exfalso. apply Hn. now left.
  - rewrite IH; [reflexivity |]. intros Hin. apply Hn. now right.
Qed.

Lemma own_properties_nodup {V} (members : list (code_units * V)) :
  NoDup (map fst members) -> own_properties members = members.
Proof.
  unfold own_properties.
  assert (H : forall acc, NoDup (map fst (acc ++ members)) ->
              fold_left (fun ps kv => put (fst kv) (snd kv) ps) members acc
              = acc ++ members).
  { induction members as [|[k v] r IH]; intros acc Hnd; simpl.
    - now rewrite app_nil_r.
    - rewrite put_fresh.
      + rewrite IH; rewrite <- app_assoc; [reflexivity | exact Hnd].
      + rewrite map_app in Hnd. simpl in Hnd.
        apply NoDup_app in Hnd. destruct Hnd as (_ & Hdisj & _).
        intros Hin. apply (Hdisj k); [now apply list_elem_of_In | left]. }
  intros Hnd. apply (H []). exact Hnd.
Qed.

Lemma key_order_no_index {V} (ps : list (code_units * V)) :
  Forall (fun kv => array_index (fst kv) = None) ps -> key_order ps = ps.
Proof.
  intros Hall. unfold key_order.
  assert (Hfold : fold_left (fun acc kv =>
                               match array_index (fst kv) with
                               | Some i => insert_by_index i kv acc
                               | None => acc
                               end) ps [] = []).
  { induction Hall as [|kv r Hkv _ IH]; simpl; [reflexivity |]. now rewrite Hkv. }
  rewrite Hfold. simpl. clear Hfold.
  induction Hall as [|kv r Hkv _ IH]; simpl; [reflexivity |].
  rewrite Hkv. f_equal. exact IH.
Qed.

Lemma quote_body_latin1 (cs : list ascii) :
  quote_body (map N_of_ascii cs) = List.concat (map (fun c => quote_unit (N_of_ascii c)) cs).
Proof.
  induction cs as [|c cs IH]; simpl; [reflexivity |].
  pose proof (N_ascii_bounded c) as Hb.
  assert (Hl : is_lead (N_of_ascii c) = false).
  { unfold is_lead. apply andb_false_intro1. apply N.leb_gt. lia. }
  assert (Ht : is_trail (N_of_ascii c) = false).
  { unfold is_trail. apply andb_false_intro1. apply N.leb_gt. lia. }
  rewrite Hl, Ht, IH. reflexivity.
Qed.

Lemma quote_ascii_units (c : ascii) :
  map N_of_ascii (quote_ascii c) = quote_unit (N_of_ascii c).
Proof. destruct c as [[] [] [] [] [] [] [] []]; reflexivity. Qed.

Lemma key_text_units (cs : list ascii) :
  map N_of_ascii (key_text cs) = quote_body (map N_of_ascii cs).
Proof.
  rewrite quote_body_latin1. unfold key_text.
  induction cs as [|c cs IH]; simpl; [reflexivity |].
  rewrite map_app, quote_ascii_units, IH. reflexivity.
Qed.

Lemma member_text_units (k tail : list ascii) :
  map N_of_ascii (member_text k tail) = member_units k ++ map N_of_ascii tail.
Proof.
  unfold member_text, member_units, QuoteJSONString. simpl.
  rewrite map_app, key_text_units. simpl.
  rewrite <- !app_assoc. reflexivity.
Qed.

Lemma members_text_units (keys : list (list ascii)) (tail : list ascii) :
  map N_of_ascii (members_text keys tail)
  = join_comma (map member_units keys) ++ map N_of_ascii tail.
Proof.
  induction keys as [|k r IH]; [reflexivity |].
  destruct r as [|k2 r2].
  - simpl. apply member_text_units.
  - change (members_text (k :: k2 :: r2) tail)
      with (member_text k (","%char :: members_text (k2 :: r2) tail)).
    rewrite member_text_units, map_cons, IH.
    change (join_comma (map member_units (k :: k2 :: r2)))
      with (member_units k ++ 44%N :: join_comma (map member_units (k2 :: r2))).
    rewrite <- app_assoc. reflexivity.
Qed.

(** What [JSON.stringify] writes for a store of enabled pairs. *)
Lemma stringify_enabled_members (keys : list (list ascii)) :
  NoDup (map (map N_of_ascii) keys) ->
  Forall (fun k => array_index (map N_of_ascii k) = None) keys ->
  stringify (JObj (enabled_members keys)) = map N_of_ascii (object_text keys).
Proof.
  intros Hnd Hidx. unfold object_text. simpl map. rewrite members_text_units.
  cbn [stringify]. f_equal. f_equal.
  unfold enabled_members. rewrite map_map. simpl.
  unfold properties. rewrite own_properties_nodup.
  - rewrite key_order_no_index.
    + rewrite map_map. reflexivity.
    + apply Forall_map. simpl. exact Hidx.
  - rewrite map_map. simpl. exact Hnd.
Qed.

Lemma parse_quote_ascii (c : ascii) (rest : list ascii) (acc : code_units) :
  parse_string_body (quote_ascii c ++ rest) acc
  = parse_string_body rest (N_of_ascii c :: acc).
Proof. destruct c as [[] [] [] [] [] [] [] []]; reflexivity. Qed.

(** A quoted key is read back as the key. *)
Lemma parse_key_text (cs rest : list ascii) (acc : code_units) :
  parse_string_body (key_text cs ++ quote :: rest) acc
  = Some (rev acc ++ map N_of_ascii cs, rest).
Proof.
  revert acc. unfold key_text.
  induction cs as [|c cs IH]; intros acc; simpl.
  - now rewrite app_nil_r.
  - rewrite <- app_assoc, parse_quote_ascii, IH. simpl.
    rewrite <- app_assoc. reflexivity.
Qed.

Lemma expect_quote (l : list ascii) : expect quote (quote :: l) = Some l.
Proof. reflexivity. Qed.

Lemma expect_colon (l : list ascii) : expect ":" (":"%char :: l) = Some l.
Proof. reflexivity. Qed.

Lemma expect_comma (l : list ascii) : expect "," (","%char :: l) = Some l.
Proof. reflexivity. Qed.

Lemma expect_comma_at_brace (l : list ascii) : expect "," ("}"%char :: l) = None.
Proof. reflexivity. Qed.

Lemma expect_brace (l : list ascii) : expect "}" ("}"%char :: l) = Some l.
Proof. reflexivity. Qed.

Lemma expect_brace_at_quote (l : list ascii) : expect "}" (quote :: l) = None.
Proof. reflexivity. Qed.

Lemma parse_value_true (fuel : nat) (tail : list ascii) :
  parse_value (S fuel) ("t"%char :: "r"%char :: "u"%char :: "e"%char :: tail)
  = Ok (JBool true, tail).
Proof. reflexivity. Qed.

(** The members of a store are read back one by one, unless the fuel runs
    out. *)
Lemma parse_members_text (keys : list (list ascii)) :
  keys <> [] ->
  forall (fuel : nat) (acc : list (code_units * json)) (rest : list ascii),
    parse_members fuel (members_text keys ("}"%char :: rest)) acc = OutOfFuel \/
    parse_members fuel (members_text keys ("}"%char :: rest)) acc
    = Ok (JObj (rev acc ++ enabled_members keys), rest).
Proof.
  induction keys as [|k r IH]; [contradiction |]. intros _ fuel acc rest.
  destruct fuel as [|fuel]; [now left |].
  destruct r as [|k2 r2].
  - change (members_text [k] ("}"%char :: rest)) with (member_text k ("}"%char :: rest)).
    unfold member_text. cbn [parse_members].
    rewrite expect_quote, parse_key_text, expect_colon. cbn [rev app].
    destruct fuel as [|fuel]; [now left |].
    rewrite parse_value_true, expect_comma_at_brace, expect_brace.
    right. reflexivity.
  - change (members_text (k :: k2 :: r2) ("}"%char :: rest))
      with (member_text k (","%char :: members_text (k2 :: r2) ("}"%char :: rest))).
    unfold member_text. cbn [parse_members].
    rewrite expect_quote, parse_key_text, expect_colon. cbn [rev app].
    destruct fuel as [|fuel]; [now left |].
    rewrite parse_value_true, expect_comma.
    destruct (IH ltac:(discriminate) (S fuel) ((map N_of_ascii k, JBool true) :: acc) rest)
      as [H | H]; [left; exact H | right].
    etransitivity; [exact H |]. simpl. rewrite <- app_assoc. reflexivity.
Qed.

Lemma parse_object_text (keys : list (list ascii)) (fuel : nat) :
  parse_value fuel (object_text keys) = OutOfFuel \/
  parse_value fuel (object_text keys) = Ok (JObj (enabled_members keys), []).
Proof.
  destruct fuel as [|fuel]; [now left |].
  unfold object_text. destruct keys as [|k r].
  - right. reflexivity.
  - assert (Hstart : exists l, members_text (k :: r) ["}"%char] = quote :: l).
    { destruct r; simpl; unfold member_text; eauto. }
    destruct Hstart as [l Hl].
    assert (E : parse_value (S fuel) ("{"%char :: members_text (k :: r) ["}"%char])
                = parse_members fuel (members_text (k :: r) ["}"%char]) []).
    { rewrite Hl. reflexivity. }
    rewrite E. apply (parse_members_text (k :: r)). discriminate.
Qed.

End StoreRoundTrip.

Lemma ownStore_keys (prefs : json) :
  ownStore prefs ->
  exists keys : list (list ascii),
    prefs = JObj (enabled_members keys) /\
    NoDup (map (map N_of_ascii) keys) /\
    Forall (fun k => array_index (map N_of_ascii k) = None) keys.
Proof.
  intros (members & -> & Hnd & Hall).
  assert (H : exists keys, members = enabled_members keys /\
                Forall (fun k => array_index (map N_of_ascii k) = None) keys).
  { clear Hnd. induction Hall as [|[k v] r (Hv & s & c & Hk) _ (keys & -> & Hidx)].
    - exists []. split; [reflexivity | constructor].
    - simpl in Hv, Hk. subst v k.
      exists (list_ascii_of_string (ChainsState.enableSoundForIdx s c) :: keys).
      split; [reflexivity |]. constructor; [| exact Hidx].
      apply pair_key_not_index. }
  destruct H as (keys & -> & Hidx). exists keys.
  split; [reflexivity |]. split; [| exact Hidx].
  unfold enabled_members in Hnd. rewrite map_map in Hnd. exact Hnd.
Qed.

(** The text of a store this script wrote parses back to the store. *)
Lemma own_store_round_trip (prefs : json) :
  ownStore prefs ->
  exists text : string,
    JSON.stringify prefs = units text /\
    ChainsState.loadEnableSoundFor (Some text) = Normal prefs.
Proof.
  intros Hown. destruct (ownStore_keys prefs Hown) as (keys & -> & Hnd & Hidx).
  exists (string_of_list_ascii (object_text keys)). split.
  - unfold units. rewrite list_ascii_of_string_of_list_ascii.
    now apply stringify_enabled_members.
  - unfold ChainsState.loadEnableSoundFor.
    destruct (string_of_list_ascii (object_text keys)) as [|a text] eqn:Etext;
      [discriminate |].
    rewrite <- Etext.
    unfold JSON.parse. rewrite list_ascii_of_string_of_list_ascii.
    destruct (parse_object_text keys (fuel_for (object_text keys))) as [H | H].
    + exfalso. exact (parse_value_fuel _ H).
    + rewrite H. reflexivity.
Qed.

(** X13. What [saveEnableSoundFor] writes for a store of enabled pairs is
    read back by [loadEnableSoundFor] as the same object: a new
    [ChainsState] built from the saved text has the preferences of the old
    one. *)
Theorem saved_store_loads_back (this : ChainsState.t) :
  ownStore (ChainsState.enableSoundFor this) ->
  exists text : string,
    ChainsState.saveEnableSoundFor this = units text /\
    ChainsState.loadEnableSoundFor (Some text) = Normal (ChainsState.enableSoundFor this) /\
    forall sources chains,
      exists this',
        ChainsState.constructor sources chains (Some text) = Normal this' /\
        ChainsState.enableSoundFor this' = ChainsState.enableSoundFor this.
Proof.
  intros Hown. destruct (own_store_round_trip _ Hown) as (text & Hsave & Hload).
  exists text. split; [exact Hsave |]. split; [exact Hload |].
  intros sources chains. unfold ChainsState.constructor. rewrite Hload. simpl.
  eexists. split; reflexivity.
Qed.

Lemma filter_keys_NoDup (f : code_units * json -> bool) (members : list (code_units * json)) :
  NoDup (map fst members) -> NoDup (map fst (List.filter f members)).
Proof.
  induction members as [|kv r IH]; simpl; [auto |].
  intros Hnd. apply NoDup_cons in Hnd. destruct Hnd as [Hn Hnd].
  destruct (f kv); simpl; [| now apply IH].
  apply NoDup_cons. split; [| now apply IH].
  intros Hin. apply Hn.
  apply list_elem_of_In in Hin. apply list_elem_of_In.
  apply in_map_iff in Hin. destruct Hin as (x & <- & Hx).
  apply filter_In in Hx. apply in_map. tauto.
Qed.

Lemma toggle_keeps_own_store (this : ChainsState.t) (source chain : string) :
  ownStore (ChainsState.enableSoundFor this) ->
  exists this',
    ChainsState.toggleEnableSoundFor this source chain = Some (Normal this') /\
    ownStore (ChainsState.enableSoundFor this').
Proof.
  intros (members & Hobj & Hnd & Hall).
  destruct (toggle_object this members source chain Hobj)
    as (enabled & members' & Hget & Htog & Hm & _).
  exists (ChainsState.set_enableSoundFor this (JObj members')).
  split; [exact Htog |]. exists members'. split; [reflexivity |].
  set (k := units (ChainsState.enableSoundForIdx source chain)) in *.
  destruct enabled; subst members'.
  - split; [now apply filter_keys_NoDup |].
    unfold ChainsState.delete_property. apply List.Forall_forall. intros kv Hin.
    apply filter_In in Hin. destruct Hin as [Hin _].
    exact (proj1 (List.Forall_forall _ _) Hall kv Hin).
  - unfold ChainsState.getEnableSoundFor in Hget. rewrite Hobj in Hget.
    fold k in Hget.
    assert (Hnone : get_own members k = None).
    { destruct (get_own members k) as [v|] eqn:E; [| reflexivity].
      apply get_own_In in E.
      destruct (proj1 (List.Forall_forall _ _) Hall _ E) as [Hv _]. simpl in Hv. subst v.
      discriminate. }
    apply get_own_None in Hnone.
    unfold ChainsState.set_property. split.
    + rewrite map_app. simpl. apply NoDup_app. split; [exact Hnd |]. split.
      * intros x Hx Hx'. apply list_elem_of_In in Hx, Hx'.
        destruct Hx' as [<- | []]. contradiction.
      * apply NoDup_singleton.
    + apply Forall_app. split; [exact Hall |]. constructor; [| constructor].
      split; [reflexivity |]. exists source, chain. reflexivity.
Qed.

(** X14. Starting from a page with no stored preferences, no run of
    toggles ever throws, and the store stays an object of enabled pairs, the
    kind of store that is saved and loaded back unchanged. *)
Theorem toggles_keep_the_store_loadable
    (sources : list Source.t) (chains : list Chain.t) (this0 : ChainsState.t)
    (pairs : list (string * string)) :
  ChainsState.constructor sources chains None = Normal this0 ->
  exists this',
    toggleAll this0 pairs = Some (Normal this') /\
    ownStore (ChainsState.enableSoundFor this') /\
    ChainsState.states this' = ChainsState.states this0 /\
    ChainsState.bestHeight this' = ChainsState.bestHeight this0.
Proof.
  intros Hnew.
  assert (H0 : ownStore (ChainsState.enableSoundFor this0)).
  { vm_compute in Hnew. injection Hnew as <-. exists []. simpl.
    split; [reflexivity |]. split; constructor. }
  clear Hnew. revert this0 H0.
  induction pairs as [|[s c] r IH]; intros this0 H0; simpl.
  - exists this0. auto.
  - destruct H0 as (members & Hobj & Hrest).
    destruct (toggle_object this0 members s c Hobj)
      as (enabled & members' & _ & Htog & _ & _).
    destruct (toggle_keeps_own_store this0 s c) as (this1 & Htog1 & Hown1).
    { exists members. auto. }
    rewrite Htog1. rewrite Htog in Htog1. injection Htog1 as <-.
    destruct (IH _ Hown1) as (this' & Hall & Hown & Hs & Hb).
    exists this'. split; [exact Hall |]. split; [exact Hown |].
    split; [rewrite Hs | rewrite Hb]; reflexivity.
Qed.

Lemma saved_store_loads_back_witness :
  exists text : string,
    ChainsState.saveEnableSoundFor (Scenario.fresh Scenario.enabledAX) = units text /\
    ChainsState.loadEnableSoundFor (Some text) = Normal Scenario.enabledAX.
Proof.
  destruct (saved_store_loads_back (Scenario.fresh Scenario.enabledAX))
    as (text & Hsave & Hload & _).
  - exists [(units "A###X", JBool true)]. split; [reflexivity |]. split.
    + apply NoDup_singleton.
    + constructor; [| constructor]. split; [reflexivity |].
      exists "A", "X". reflexivity.
  - exists text. split; [exact Hsave | exact Hload].
Defined.

Lemma toggles_keep_the_store_loadable_witness :
  exists this',
    toggleAll (Scenario.fresh (JObj [])) [("A", "X"); ("B", "X"); ("A", "X")]
    = Some (Normal this') /\
    ownStore (ChainsState.enableSoundFor this').
Proof.
  destruct (toggles_keep_the_store_loadable [Scenario.A; Scenario.B] [Scenario.X]
              (Scenario.fresh (JObj [])) [("A", "X"); ("B", "X"); ("A", "X")] eq_refl)
    as (this' & Hall & Hown & _).
  exists this'. split; [exact Hall | exact Hown].
Defined.

(** ** The connection loop over runs of events *)

Lemma on_message_count (item : option string) (app : App.t) (msg : App.frame) :
  App.reconnectCount (fst (App.on_message item app (App.Parsed msg))) = 0%N.
Proof.
  unfold App.on_message. destruct msg as [srcs chs | s c m |]; simpl.
  - destruct (ChainsState.constructor srcs chs item); reflexivity.
  - destruct (App.chains app) as [cs|]; [| reflexivity].
    destruct (ChainsState.update cs s c m). reflexivity.
  - reflexivity.
Qed.

Lemma run_counts_closes (post : list App.event) (app : App.t) :
  Forall (fun ev => isParsedMessage ev = false) post ->
  App.reconnectCount (App.run app post)
  = (App.reconnectCount app + N.of_nat (length (List.filter isClose post)))%N.
Proof.
  unfold App.run. revert app.
  induction post as [|ev r IH]; intros app Hall; simpl; [lia |].
  inversion Hall as [|? ? Hev Hr]; subst.
  rewrite IH by exact Hr.
  destruct ev as [| item [| msg] | | random];
    simpl in *; unfold App.on_open, App.on_error; try discriminate; lia.
Qed.

(** X15. The retry counter counts the connections lost since the last
    message that parsed: opens, errors and unparsable messages do not
    change it. *)
Theorem counter_counts_closes_since_last_message
    (app : App.t) (before after : list App.event) (item : option string) (msg : App.frame) :
  Forall (fun ev => isParsedMessage ev = false) after ->
  App.reconnectCount
    (App.run app (before ++ App.Message item (App.Parsed msg) :: after))
  = N.of_nat (length (List.filter isClose after)) /\
  App.reconnectCount (App.run app after)
  = (App.reconnectCount app + N.of_nat (length (List.filter isClose after)))%N.
Proof.
  intros Hall. split; [| now apply run_counts_closes].
  assert (E : App.run app (before ++ App.Message item (App.Parsed msg) :: after)
              = App.run (fst (App.on_message item (App.run app before) (App.Parsed msg)))
                  after).
  { unfold App.run. rewrite fold_left_app. reflexivity. }
  rewrite E, run_counts_closes by exact Hall.
  rewrite on_message_count. lia.
Qed.

Lemma counter_counts_closes_since_last_message_witness :
  App.reconnectCount
    (App.run App.constructor
       [App.Close (1 # 2); App.Open; App.Message None (App.Parsed App.Other);
        App.Close (1 # 3); App.Open; App.Message None App.Unparsable; App.Error;
        App.Close (1 # 4)])
  = 2%N.
Proof.
  apply (counter_counts_closes_since_last_message App.constructor
           [App.Close (1 # 2); App.Open] 
           [App.Close (1 # 3); App.Open; App.Message None App.Unparsable; App.Error;
            App.Close (1 # 4)] None App.Other).
  repeat constructor.
Defined.

Lemma step_keeps_chains_defined (app : App.t) (ev : App.event) :
  is_Some (App.chains app) -> is_Some (App.chains (App.step app ev)).
Proof.
  intros [cs Hcs]. destruct ev as [| item [| [srcs chs | s c m |]] | | random]; simpl;
    unfold App.on_open, App.on_error; try (rewrite Hcs; eauto; fail).
  all: try (destruct (ChainsState.constructor srcs chs item); simpl; eauto; fail).
  all: try (rewrite Hcs; destruct (ChainsState.update cs s c m); simpl; eauto).
Qed.

(** X16. The table appears with the first init frame that is built and
    never goes away: before it, [app.chains] stays undefined and every
    update frame throws a TypeError; once [app.chains] is defined, no event
    makes it undefined again. *)
Theorem chains_defined_from_first_init (app : App.t) (evs : list App.event) :
  (App.chains app = None -> Forall (fun ev => isInit ev = false) evs ->
   App.chains (App.run app evs) = None /\
   forall item source chain msg,
     snd (App.on_message item (App.run app evs)
            (App.Parsed (App.Update source chain msg))) = Throw TypeError) /\
  (is_Some (App.chains app) -> is_Some (App.chains (App.run app evs))).
Proof.
  split.
  - intros Hnone Hall.
    assert (H : App.chains (App.run app evs) = None).
    { unfold App.run. revert app Hnone.
      induction Hall as [|ev r Hev _ IH]; intros app Hnone; simpl; [exact Hnone |].
      apply IH.
      destruct ev as [| item [| [srcs chs | s c m |]] | | random]; simpl in *;
        try discriminate; try exact Hnone.
      rewrite Hnone. reflexivity. }
    split; [exact H |]. intros item s c m. simpl. rewrite H. reflexivity.
  - unfold App.run. revert app.
    induction evs as [|ev r IH]; intros app Hsome; simpl; [exact Hsome |].
    apply IH. now apply step_keeps_chains_defined.
Qed.

Lemma chains_defined_from_first_init_witness :
  App.chains (App.run App.constructor
                [App.Open; App.Message None (App.Parsed
                   (App.Update "A" "X" (Scenario.observation 100 "h1" Scenario.t0)));
                 App.Close (1 # 2)]) = None.
Proof.
  destruct (chains_defined_from_first_init App.constructor
              [App.Open; App.Message None (App.Parsed
                 (App.Update "A" "X" (Scenario.observation 100 "h1" Scenario.t0)));
               App.Close (1 # 2)]) as [H _].
  destruct H as [H _]; [reflexivity | repeat constructor | exact H].
Defined.

(** X17. With an unreadable preference store no init frame is ever
    honoured: each one throws out of the constructor, and a page that
    starts with such a store never gets a table, whatever arrives. *)
Theorem corrupt_store_blocks_every_init (evs : list App.event) (app : App.t) :
  Forall storeCorruptAt evs ->
  App.chains app = None ->
  App.chains (App.run app evs) = None.
Proof.
  unfold App.run. intros Hc. revert app.
  induction Hc as [|ev r Hev _ IH]; intros app Hnone; simpl; [exact Hnone |].
  apply IH.
  destruct ev as [| item [| [srcs chs | s c m |]] | | random]; simpl in *;
    try exact Hnone.
  - destruct Hev as [e He]. unfold ChainsState.constructor. rewrite He. exact Hnone.
  - rewrite Hnone. reflexivity.
Qed.

Lemma corrupt_store_blocks_every_init_witness :
  App.chains
    (App.run App.constructor
       [App.Open;
        App.Message (Some "{") (App.Parsed (App.Init [Scenario.A; Scenario.B] [Scenario.X]));
        App.Message (Some "{") (App.Parsed
          (App.Update "A" "X" (Scenario.observation 100 "h1" Scenario.t0)))])
  = None.
Proof.
  apply corrupt_store_blocks_every_init; [| reflexivity].
  repeat constructor; exists SyntaxError; vm_compute; reflexivity.
Defined.

Lemma run_from_defined (evs : list App.event) :
  Forall (fun ev => isInit ev = false) evs ->
  forall (n : N) (this0 : ChainsState.t),
    App.chains (App.run {| App.reconnectCount := n; App.chains := Some this0 |} evs)
    = Some (applyUpdates this0 (updatesOf evs)).
Proof.
  unfold App.run, applyUpdates.
  induction 1 as [|ev r Hev _ IH]; intros n this0; [reflexivity |].
  destruct ev as [| item [| [srcs chs | s c m |]] | | random]; simpl in *;
    try discriminate; unfold App.on_open, App.on_error; apply IH.
Qed.

(** X18. The table of a session is the run of its update frames over the
    state the init frame built: opens, closes, errors, unparsable messages
    and frames of other types in between change nothing in it. *)
Theorem session_state_is_run_of_updates
    (app : App.t) (sources : list Source.t) (chains : list Chain.t)
    (item : option string) (this0 : ChainsState.t) (evs : list App.event) :
  ChainsState.constructor sources chains item = Normal this0 ->
  Forall (fun ev => isInit ev = false) evs ->
  App.chains
    (App.run app (App.Message item (App.Parsed (App.Init sources chains)) :: evs))
  = Some (applyUpdates this0 (updatesOf evs)).
Proof.
  intros Hnew Hall.
  change (App.run app (App.Message item (App.Parsed (App.Init sources chains)) :: evs))
    with (App.run (fst (App.on_message item app (App.Parsed (App.Init sources chains))))
            evs).
  simpl. rewrite Hnew. simpl. now apply run_from_defined.
Qed.

Lemma session_state_is_run_of_updates_witness :
  App.chains
    (App.run App.constructor
       [App.Message None (App.Parsed (App.Init [Scenario.A; Scenario.B] [Scenario.X]));
        App.Message None (App.Parsed
          (App.Update "A" "X" (Scenario.observation 100 "h1" Scenario.t0)));
        App.Close (1 # 2); App.Open; App.Message None App.Unparsable;
        App.Message None (App.Parsed
          (App.Update "B" "X" (Scenario.observation 99 "h2" (Scenario.t0 + 1))))])
  = Some (applyUpdates (Scenario.fresh (JObj []))
            [Scenario.report "A" "X" 100 "h1" Scenario.t0;
             Scenario.report "B" "X" 99 "h2" (Scenario.t0 + 1)]).
Proof.
  apply (session_state_is_run_of_updates App.constructor [Scenario.A; Scenario.B]
           [Scenario.X] None (Scenario.fresh (JObj []))).
  - reflexivity.
  - repeat constructor.
Defined.

(** ** Reconnect delays *)

(** X19. The first retry after a message is immediate; up to 39 failed
    attempts the delay is the uncapped product, below 60 s; from 120 failed
    attempts on it is 60 s whatever the random draw. *)
Theorem reconnect_delay_by_attempts (n : N) (random : Q) :
  (0 <= random)%Q -> (random < 1)%Q ->
  (n = 0%N -> (App.reconnectDelay n random == 0)%Q) /\
  ((n < 40)%N ->
   (App.reconnectDelay n random
    == (1000 # 1) * inject_Z (Z.of_N n) * (random + (1 # 2)))%Q /\
   (App.reconnectDelay n random < 60000 # 1)%Q) /\
  ((120 <= n)%N -> (App.reconnectDelay n random == 60000 # 1)%Q).
Proof.
  intros H0 H1. unfold App.reconnectDelay.
  set (product := ((1000 # 1) * inject_Z (Z.of_N n) * (random + (1 # 2)))%Q).
  assert (Hlow : (n < 40)%N -> (product < 60000 # 1)%Q).
  { intros Hn. unfold product. destruct random as [p q].
    unfold Qlt, Qle in *. simpl in *. nia. }
  assert (Hhigh : (120 <= n)%N -> (60000 # 1 <= product)%Q).
  { intros Hn. unfold product. destruct random as [p q].
    unfold Qlt, Qle in *. simpl in *. nia. }
  split; [| split].
  - intros ->. rewrite Q.min_r.
    + unfold product. simpl. ring.
    + apply Qlt_le_weak. apply Hlow. lia.
  - intros Hn. specialize (Hlow Hn).
    rewrite Q.min_r by (now apply Qlt_le_weak). split; [reflexivity | exact Hlow].
  - intros Hn. apply Q.min_l. now apply Hhigh.
Qed.

Lemma reconnect_delay_by_attempts_witness :
  (App.reconnectDelay 500 (1 # 3) == 60000 # 1)%Q.
Proof.
  destruct (reconnect_delay_by_attempts 500 (1 # 3)) as (_ & _ & H).
  - discriminate.
  - reflexivity.
  - apply H. lia.
Defined.

(** ** The first revision *)

(** X20. In the first revision a lost connection is retried after at
    least 10 s and at most 20 s, whatever the rounding of the product and
    of the sum, as long as it is monotone and exact on 0, 10000 and 20000
    (as the rounding to a double is). *)
Theorem legacy_delay_between_10_and_20_seconds (round : Q -> Q) (random : Q) :
  (forall x y, x <= y -> round x <= round y)%Q ->
  (round 0 == 0)%Q -> (round (10000 # 1) == 10000 # 1)%Q ->
  (round (20000 # 1) == 20000 # 1)%Q ->
  (0 <= random)%Q -> (random < 1)%Q ->
  (10000 # 1 <= Legacy.reconnectDelay round random)%Q /\
  (Legacy.reconnectDelay round random <= 20000 # 1)%Q.
Proof.
  intros Hmono E0 E1 E2 H0 H1. unfold Legacy.reconnectDelay.
  assert (Hp0 : (0 <= random * (10000 # 1))%Q).
  { destruct random as [p q]. unfold Qle in *. simpl in *. nia. }
  assert (Hp1 : (random * (10000 # 1) <= 10000 # 1)%Q).
  { destruct random as [p q]. unfold Qle, Qlt in *. simpl in *. nia. }
  assert (L0 : (0 <= round 0)%Q) by (unfold Qeq, Qle in *; simpl in *; lia).
  assert (L1 : (10000 # 1 <= round (10000 # 1))%Q)
    by (unfold Qeq, Qle in *; simpl in *; lia).
  assert (U1 : (round (10000 # 1) <= 10000 # 1)%Q)
    by (unfold Qeq, Qle in *; simpl in *; lia).
  assert (U2 : (round (20000 # 1) <= 20000 # 1)%Q)
    by (unfold Qeq, Qle in *; simpl in *; lia).
  assert (Hr0 : (0 <= round (random * (10000 # 1)))%Q).
  { eapply Qle_trans; [exact L0 | apply Hmono; exact Hp0]. }
  assert (Hr1 : (round (random * (10000 # 1)) <= 10000 # 1)%Q).
  { eapply Qle_trans; [apply Hmono; exact Hp1 | exact U1]. }
  split.
  - eapply Qle_trans; [exact L1 |]. apply Hmono.
    eapply Qle_trans; [| apply Qplus_le_compat; [apply Qle_refl | exact Hr0]].
    rewrite Qplus_0_r. apply Qle_refl.
  - eapply Qle_trans; [| exact U2]. apply Hmono.
    eapply Qle_trans; [apply Qplus_le_compat; [apply Qle_refl | exact Hr1] |].
    discriminate.
Qed.

Lemma legacy_delay_between_10_and_20_seconds_witness :
  let nearest := fun x : Q => inject_Z (Qfloor (x + (1 # 2))) in
  (10000 # 1 <= Legacy.reconnectDelay nearest (99999 # 100000))%Q /\
  (Legacy.reconnectDelay nearest (99999 # 100000) <= 20000 # 1)%Q.
Proof.
  intros nearest.
  apply (legacy_delay_between_10_and_20_seconds nearest (99999 # 100000)).
  - intros x y H. unfold nearest. rewrite <- Zle_Qle. apply Qfloor_resp_le.
    apply Qplus_le_compat; [exact H | apply Qle_refl].
  - reflexivity.
  - reflexivity.
  - reflexivity.
  - discriminate.
  - reflexivity.
Defined.



(** ** A click on a cell *)

(** X22. A click on a cell of a page whose store is an object of enabled
    pairs never throws: it inverts the setting of the pair and writes a
    text that loads back as the preferences the page now holds. *)
Theorem click_writes_what_reload_reads
    (this : ChainsState.t) (source chain : string) :
  ownStore (ChainsState.enableSoundFor this) ->
  exists (enabled : bool) (this' : ChainsState.t) (text : string),
    ChainsState.getEnableSoundFor this source chain = Normal enabled /\
    ChainsState.soundToggleClick this source chain = Some (Normal (this', units text)) /\
    ChainsState.getEnableSoundFor this' source chain = Normal (negb enabled) /\
    ChainsState.loadEnableSoundFor (Some text) = Normal (ChainsState.enableSoundFor this').
Proof.
  intros Hown.
  destruct (toggle_keeps_own_store this source chain Hown) as (this' & Htog & Hown').
  destruct Hown as (members & Hobj & _).
  destruct (toggle_object this members source chain Hobj)
    as (enabled & members' & Hget & Htog' & _ & Hafter).
  rewrite Htog in Htog'. injection Htog' as ->.
  destruct (own_store_round_trip _ Hown') as (text & Hsave & Hload).
  exists enabled, (ChainsState.set_enableSoundFor this (JObj members')), text.
  split; [exact Hget |]. split.
  - unfold ChainsState.soundToggleClick. rewrite Htog.
    unfold ChainsState.saveEnableSoundFor. rewrite Hsave. reflexivity.
  - split; [| exact Hload].
    rewrite Hafter. now rewrite bool_decide_eq_true_2.
Qed.

Lemma click_writes_what_reload_reads_witness :
  exists (this' : ChainsState.t) (text : string),
    ChainsState.soundToggleClick (Scenario.fresh (JObj [])) "A" "X"
    = Some (Normal (this', units text)) /\
    ChainsState.getEnableSoundFor this' "A" "X" = Normal true.
Proof.
  destruct (click_writes_what_reload_reads (Scenario.fresh (JObj [])) "A" "X")
    as (enabled & this' & text & Hget & Hclick & Hflip & _).
  - exists []. split; [reflexivity |]. split; constructor.
  - exists this', text. split; [exact Hclick |].
    rewrite Hflip. vm_compute in Hget. injection Hget as <-. reflexivity.
Defined.
